(** * bootstrap_commitlogs: the shard/range planner and the bootstrap invoker

    A shallow embedding of [src/tools/bootstrap_commitlogs/main/main.go].

    The tool reads its flags, computes a three-block window around the
    reference time, builds a [ShardTimeRanges] map either from an explicit
    comma-separated shard list or from a shard count, and runs one commit-log
    bootstrap over it.

    Go's fixed-width integers are integers of [Z] with the wrap-around written
    out ([int] is taken to be 64 bits wide, as on every platform the database
    is built for).  Go strings are byte sequences, [list ascii].  The map is a
    [gmap] keyed by the [uint32] shard identifier.  The collaborators of other
    packages (the range collection of [xtime], the commit-log bootstrapper,
    the namespace metadata constructor) are section variables. *)

From Stdlib Require Import ZArith Lia List Ascii String Bool.
From stdpp Require Import base option list gmap.

Local Open Scope Z_scope.

(** ** Fixed-width integers *)

Module GoInt.

(** Conversion to a signed integer of [w] bits: two's complement wrap. *)
Definition wrap_signed (w x : Z) : Z :=
  (x + 2 ^ (w - 1)) mod 2 ^ w - 2 ^ (w - 1).

Definition int32 (x : Z) : Z := wrap_signed 32 x.
Definition int64 (x : Z) : Z := wrap_signed 64 x.
Definition uint32 (x : Z) : Z := x mod 2 ^ 32.
Definition uint64 (x : Z) : Z := x mod 2 ^ 64.

Definition minInt64 : Z := - 2 ^ 63.
Definition maxInt64 : Z := 2 ^ 63 - 1.
Definition maxUint64 : Z := 2 ^ 64 - 1.

Definition in_int64 (x : Z) : Prop := minInt64 <= x <= maxInt64.

End GoInt.
Export GoInt.

(** ** Package [time] *)

Module GoTime.

(** A [Duration] is an [int64] count of nanoseconds. *)
Definition Nanosecond : Z := 1.
Definition Second : Z := 1000000000.
Definition Minute : Z := 60 * Second.
Definition Hour : Z := 60 * Minute.

(** A [Time] without monotonic clock reading: [sec] counts the seconds
    since January 1, year 1 00:00:00 UTC (an [int64]) and [nsec] the
    nanoseconds within that second (an [int32] in [0, 999999999]).  The
    location only matters for printing and is left out. *)
Record Time : Type := mkTime { sec : Z; nsec : Z }.

Definition unixToInternal : Z :=
  (1969 * 365 + 1969 / 4 - 1969 / 100 + 1969 / 400) * 86400.

(** [time.Unix(sec, nsec)]. *)
Definition Unix (s n : Z) : Time :=
  let '(s, n) :=
    if (n <? 0) || (n >=? Second) then
      let q := Z.quot n Second in
      let s := int64 (s + q) in
      let n := int64 (n - int64 (q * Second)) in
      if n <? 0 then (int64 (s - 1), int64 (n + Second)) else (s, n)
    else (s, n) in
  mkTime (int64 (s + unixToInternal)) (int32 n).

(** [t.Add(d)]: the seconds are added with [int64] wrap-around.  (Later Go
    releases clamp the sum at the ends of the [int64] range instead; the two
    agree whenever the sum is representable.) *)
Definition Add (t : Time) (d : Z) : Time :=
  let dsec := Z.quot d Second in
  let n := int32 (nsec t + int32 (Z.rem d Second)) in
  let '(dsec, n) :=
    if n >=? Second then (int64 (dsec + 1), int32 (n - Second))
    else if n <? 0 then (int64 (dsec - 1), int32 (n + Second))
    else (dsec, n) in
  mkTime (int64 (sec t + dsec)) n.

(** The remainder computed by [div(t, d)], for [d > 0].  The function works
    on the absolute value of a negative [t] and fixes the remainder up at
    the end.  Its general case forms the nanoseconds as a 128-bit number and
    reduces it by shift and subtract; here that number is an integer of [Z]
    and the reduction is [mod].  The parity of the quotient, which only
    [Round] reads, is left out. *)
Definition div (t : Time) (d : Z) : Z :=
  let neg := sec t <? 0 in
  let '(s, n) :=
    if neg then
      let s := int64 (- sec t) in
      let n := int32 (- nsec t) in
      if n <? 0 then (int64 (s - 1), int32 (n + Second)) else (s, n)
    else (sec t, nsec t) in
  let r :=
    if (d <? Second) && (Z.rem Second (int64 (d + d)) =? 0) then
      (* 2d divides one second *)
      Z.rem n (int32 d)
    else if Z.rem d Second =? 0 then
      (* d is a multiple of one second *)
      let d1 := Z.quot d Second in
      int64 (int64 (Z.rem s d1 * Second) + n)
    else
      (uint64 s * Second + uint64 n) mod uint64 d in
  if neg && negb (r =? 0) then int64 (d - r) else r.

(** [t.Truncate(d)]: rounds [t] down to a multiple of [d] since the zero
    time; returns [t] unchanged when [d <= 0]. *)
Definition Truncate (t : Time) (d : Z) : Time :=
  if d <=? 0 then t else Add t (int64 (- div t d)).

Definition Equal (t u : Time) : bool :=
  (sec t =? sec u) && (nsec t =? nsec u).
Definition Before (t u : Time) : bool :=
  (sec t <? sec u) || ((sec t =? sec u) && (nsec t <? nsec u)).
Definition After (t u : Time) : bool :=
  (sec t >? sec u) || ((sec t =? sec u) && (nsec t >? nsec u)).

(** The instant of [t] as an exact count of nanoseconds since the zero
    time: the measure the properties below are stated in. *)
Definition abs_ns (t : Time) : Z := sec t * Second + nsec t.

(** The times the package produces keep [nsec] within one second. *)
Definition wf (t : Time) : Prop := in_int64 (sec t) /\ 0 <= nsec t < Second.

End GoTime.
Export GoTime.

(** ** The bootstrap window (main.go, lines 79-83) *)

Definition now (currentUnixTimestamp : Z) : Time := Unix currentUnixTimestamp 0.

Definition startInclusive (currentUnixTimestamp blockSize : Z) : Time :=
  Add (Truncate (now currentUnixTimestamp) blockSize) (int64 (- blockSize)).

Definition endExclusive (currentUnixTimestamp blockSize : Z) : Time :=
  Add (Truncate (now currentUnixTimestamp) blockSize) (int64 (blockSize * 2)).

(** The words of the specification: the reference instant "truncated down to
    the nearest multiple of blockSize" is the greatest multiple of the block
    size that is not after it (lemma [truncated_down_greatest]). *)
Definition truncated_down (instant blockSize : Z) : Z :=
  instant - instant mod Z.abs blockSize.

(** The flags for which no step of the window computation leaves the
    [int64] range: a positive block size whose double is representable, and a
    timestamp far from the ends of the range. *)
Definition window_fits (currentUnixTimestamp blockSize : Z) : Prop :=
  0 < blockSize < 2 ^ 62 /\ - 2 ^ 62 <= currentUnixTimestamp <= 2 ^ 62.

(** ** Package [strings] *)

Module GoStrings.

(** A Go string: a sequence of bytes. *)
Definition gostring : Type := list ascii.

Definition str (s : string) : gostring := list_ascii_of_string s.

Definition byte_val (c : ascii) : Z := Z.of_N (N_of_ascii c).

(** The byte sequences that decode to a rune for which [unicode.IsSpace]
    holds: the six ASCII ones, and the UTF-8 encodings of U+0085, U+00A0,
    U+1680, U+2000 to U+200A, U+2028, U+2029, U+202F, U+205F and U+3000.  An
    invalid or overlong sequence decodes to the error rune, which is not a
    space. *)
Definition spaceEncodings : list (list Z) :=
  [[0x09]; [0x0A]; [0x0B]; [0x0C]; [0x0D]; [0x20];
   [0xC2; 0x85]; [0xC2; 0xA0]; [0xE1; 0x9A; 0x80]]
  ++ map (fun b => [0xE2; 0x80; b]) (seqZ 0x80 11)
  ++ [[0xE2; 0x80; 0xA8]; [0xE2; 0x80; 0xA9]; [0xE2; 0x80; 0xAF];
      [0xE2; 0x81; 0x9F]; [0xE3; 0x80; 0x80]].

Fixpoint strip_prefix (p : list Z) (s : gostring) : option gostring :=
  match p, s with
  | [], _ => Some s
  | b :: p', c :: s' => if byte_val c =? b then strip_prefix p' s' else None
  | _ :: _, [] => None
  end.

(** Drops one space rune from the front, when the string starts with one. *)
Fixpoint strip_space (encs : list (list Z)) (s : gostring) : option gostring :=
  match encs with
  | [] => None
  | p :: encs' =>
      match strip_prefix p s with
      | Some r => Some r
      | None => strip_space encs' s
      end
  end.

(** Drops space runes from the front; every round drops at least one byte,
    so [length s] rounds are enough. *)
Fixpoint trim_front (fuel : nat) (encs : list (list Z)) (s : gostring) : gostring :=
  match fuel with
  | O => s
  | S fuel' =>
      match strip_space encs s with
      | Some r => trim_front fuel' encs r
      | None => s
      end
  end.

Definition TrimLeftSpace (s : gostring) : gostring :=
  trim_front (length s) spaceEncodings s.

(** From the back the last rune is decoded, which is a space exactly when
    the string ends in one of the encodings. *)
Definition TrimRightSpace (s : gostring) : gostring :=
  rev (trim_front (length s) (map (@rev Z) spaceEncodings) (rev s)).

(** [strings.TrimSpace(s)]. *)
Definition TrimSpace (s : gostring) : gostring :=
  TrimRightSpace (TrimLeftSpace s).

(** [strings.Split(s, sep)] for a separator of one byte. *)
Fixpoint Split (s : gostring) (sep : ascii) : list gostring :=
  match s with
  | [] => [[]]
  | c :: s' =>
      if Ascii.eqb c sep then [] :: Split s' sep
      else match Split s' sep with
           | tok :: toks => (c :: tok) :: toks
           | [] => [[c]]
           end
  end.

Definition is_empty (s : gostring) : bool :=
  match s with [] => true | _ :: _ => false end.

End GoStrings.
Export GoStrings.

(** ** Package [strconv] *)

Module GoStrconv.

Inductive NumError : Type := ErrSyntax | ErrRange.

(** The loop of [ParseUint] in base 10 with 64 bits: [n] is the value read
    so far. *)
Fixpoint parseDigits (n : Z) (s : gostring) : Z + NumError :=
  match s with
  | [] => inl n
  | c :: s' =>
      let b := byte_val c in
      if (48 <=? b) && (b <=? 57) then
        let d := b - 48 in
        if n >=? maxUint64 / 10 + 1 then inr ErrRange
        else
          let n1 := n * 10 + d in
          if n1 >? maxUint64 then inr ErrRange else parseDigits n1 s'
      else inr ErrSyntax
  end.

Definition ParseUint10 (s : gostring) : Z + NumError :=
  match s with
  | [] => inr ErrSyntax
  | _ :: _ => parseDigits 0 s
  end.

(** [ParseInt(s, 10, 0)] with 64-bit [int]. *)
Definition ParseInt10 (s : gostring) : Z + NumError :=
  match s with
  | [] => inr ErrSyntax
  | c :: s' =>
      let '(neg, body) :=
        if Ascii.eqb c "+" then (false, s')
        else if Ascii.eqb c "-" then (true, s')
        else (false, s) in
      match ParseUint10 body with
      | inr ErrSyntax => inr ErrSyntax
      | inr ErrRange => inr ErrRange
      | inl un =>
          let cutoff := 2 ^ 63 in
          if negb neg && (un >=? cutoff) then inr ErrRange
          else if neg && (un >? cutoff) then inr ErrRange
          else inl (if neg then int64 (- int64 un) else int64 un)
      end
  end.

(** [strconv.Atoi(s)]. *)
Definition Atoi (s : gostring) : Z + NumError := ParseInt10 s.

(** The words "a decimal integer": the digits, and the number they write. *)
Definition is_digit (c : ascii) : bool :=
  (48 <=? byte_val c) && (byte_val c <=? 57).

Definition decimal_from (n : Z) (s : gostring) : Z :=
  fold_left (fun n c => n * 10 + (byte_val c - 48)) s n.

Definition decimal (s : gostring) : Z := decimal_from 0 s.

End GoStrconv.
Export GoStrconv.

(** ** The data of the tool *)

(** A range of [xtime]: the half-open interval from [RangeStart] to
    [RangeEnd]. *)
Record Range : Type := mkRange { RangeStart : Time; RangeEnd : Time }.

(** What the tool hands to the other packages.  Of the assembled options only
    the fields that come from the flags are kept. *)
Record Options : Type := mkOptions {
  FilePathPrefix : gostring;
  FlushSize : Z;
  BlockSize : Z
}.

Record RetentionOptions : Type := mkRetentionOptions {
  RetentionBlockSize : Z;
  RetentionPeriod : Z;
  BufferPast : Z;
  BufferFuture : Z
}.

Record RunOptions : Type := mkRunOptions { Incremental : bool }.

(** The flags, as read at the top of [main]. *)
Record Flags : Type := mkFlags {
  pathPrefix : gostring;
  namespaceStr : gostring;
  blockSize : Z;
  flushSize : Z;
  bootstrapRetention : Z;
  shardsCount : Z;
  shards : gostring;
  currentUnixTimestamp : Z
}.

(** The messages of [log.Fatalf] and [log.Fatal]. *)
Inductive fatal : Type :=
| InvalidShardList (shards : gostring)
| CouldNotParseShard (shard : gostring) (err : NumError)
| FatalError (msg : gostring)
| FailedToBootstrap (msg : gostring).

(** A token the list loop accepts, with the identifier it stands for: what
    is left after trimming is not empty and [Atoi] reads it as [v]. *)
Definition accepts (tok : gostring) (id : Z) : Prop :=
  TrimSpace tok <> [] /\ exists v, Atoi (TrimSpace tok) = inl v /\ id = uint32 v.

(** A token the list loop stops at. *)
Definition rejects (tok : gostring) : Prop :=
  TrimSpace tok = [] \/ exists err, Atoi (TrimSpace tok) = inr err.

(** The same flags with another shard count. *)
Definition withShardsCount (c : Z) (f : Flags) : Flags :=
  mkFlags (pathPrefix f) (namespaceStr f) (blockSize f) (flushSize f)
    (bootstrapRetention f) c (shards f) (currentUnixTimestamp f).

(** The defaults of the flags (main.go, lines 33-43), at a given reading of
    the clock. *)
Definition defaultFlags (unixNow : Z) : Flags :=
  mkFlags (str "/var/lib/m3db") (str "metrics") (10 * Minute) 524288 (48 * Hour)
    8192 [] unixNow.

Definition withShards (s : gostring) (f : Flags) : Flags :=
  mkFlags (pathPrefix f) (namespaceStr f) (blockSize f) (flushSize f)
    (bootstrapRetention f) (shardsCount f) s (currentUnixTimestamp f).

Definition withBlockSize (d : Z) (f : Flags) : Flags :=
  mkFlags (pathPrefix f) (namespaceStr f) d (flushSize f)
    (bootstrapRetention f) (shardsCount f) (shards f) (currentUnixTimestamp f).

(** ** Collaborators to run the tool on

    The range collection as the record of the calls made on it, and a
    pipeline in which every call succeeds and the result is the number of
    shards it was given. *)
Module Symbolic.

Inductive ranges : Type :=
| new_ranges
| add_range (tr : ranges) (r : Range).

Definition newBootstrapper (opts : Options) : unit + gostring := inl tt.

Definition newMetadata (ns : gostring) (ropts : RetentionOptions) : unit + gostring :=
  inl tt.

Definition bootstrap (source md : unit) (m : gmap Z ranges) (runOpts : RunOptions)
  : Z + gostring := inl (Z.of_nat (size m)).

Definition shardResultsLen (res : Z) : Z := res.
Definition unfulfilledLen (res : Z) : Z := 0.

End Symbolic.

(** ** The process: a log of what it did, and how it ended *)

(** A computation either goes on with a value or ends the process with an
    exit status; in both cases it has logged some events. *)
Inductive ending (A : Type) : Type :=
| Continue (a : A)
| Exit (status : Z).
Arguments Continue {A} a.
Arguments Exit {A} status.

(** ** Notions the further properties are stated with *)

(** [strings.Join(toks, sep)] for a separator of one byte: the inverse of
    [Split]. *)
Fixpoint Join (toks : list gostring) (sep : ascii) : gostring :=
  match toks with
  | [] => []
  | tok :: toks' =>
      match toks' with
      | [] => tok
      | _ :: _ => tok ++ sep :: Join toks' sep
      end
  end.

(** The six whitespace bytes of ASCII: tab, line feed, vertical tab, form
    feed, carriage return and space. *)
Definition is_ascii_space (c : ascii) : bool :=
  let b := byte_val c in
  (b =? 9) || (b =? 10) || (b =? 11) || (b =? 12) || (b =? 13) || (b =? 32).

(** A run of whitespace runes: the concatenation of byte sequences that are
    each one of the encodings. *)
Definition space_run (encs : list (list Z)) (s : gostring) : Prop :=
  exists runes : list gostring,
    s = concat runes /\ Forall (fun r => map byte_val r ∈ encs) runes.


(** A printable byte of ASCII for the trimming: below 128 and no
    whitespace. *)
Definition is_ascii_ink (c : ascii) : bool :=
  (byte_val c <? 128) && negb (is_ascii_space c).

(** What the trimming of ASCII text rests on: an encoding is a single ASCII
    whitespace byte or starts with a byte of 128 or more, and each of the six
    ASCII whitespace bytes is an encoding. *)
Definition ascii_apart (encs : list (list Z)) : Prop :=
  Forall (fun p =>
            match p with
            | [] => False
            | b :: rest =>
                (rest = [] /\ (b = 9 \/ b = 10 \/ b = 11 \/ b = 12 \/ b = 13 \/ b = 32))
                \/ 128 <= b
            end) encs /\
  Forall (fun b => In [b] encs) [9; 10; 11; 12; 13; 32].


(** Tactics: the powers of two as numerals, and closed facts settled by
    evaluation. *)
Ltac unfold_ints :=
  unfold in_int64, minInt64, maxInt64, maxUint64, int64, int32, uint64, uint32,
    wrap_signed in *;
  change (2 ^ (64 - 1)) with 9223372036854775808 in *;
  change (2 ^ (32 - 1)) with 2147483648 in *;
  change (2 ^ 64) with 18446744073709551616 in *;
  change (2 ^ 63) with 9223372036854775808 in *;
  change (2 ^ 62) with 4611686018427387904 in *;
  change (2 ^ 32) with 4294967296 in *.

Ltac eval_closed := vm_compute; first [reflexivity | discriminate].
Ltac in_list := first [left; reflexivity | right; in_list].
Ltac accept_token v :=
  split; [eval_closed | exists v; split; eval_closed].

Section Tool.

(** The range collection of [xtime]. *)
Context {Ranges : Type} (NewRanges : Ranges) (AddRange : Ranges -> Range -> Ranges).

(** The bootstrap pipeline: each call returns its value or the message of
    its error. *)
Context {Source Metadata Result : Type}.
Context (NewCommitLogBootstrapper : Options -> Source + gostring).
Context (NewMetadata : gostring -> RetentionOptions -> Metadata + gostring).
Context (Bootstrap : Source -> Metadata -> gmap Z Ranges -> RunOptions -> Result + gostring).
Context (ShardResultsLen UnfulfilledLen : Result -> Z).

Inductive event : Type :=
| Usage
| LogInfo (msg : gostring)
| LogConfigured (pathPrefix namespaceStr : gostring) (shardsAll : list Z)
| LogFatal (msg : fatal)
| CallNewCommitLogBootstrapper (opts : Options)
| CallNewMetadata (ns : gostring) (ropts : RetentionOptions)
| CallBootstrap (md : Metadata) (shardTimeRanges : gmap Z Ranges) (runOpts : RunOptions)
| LogBootstrapped (shardResults unfulfilled : Z).

Definition M (A : Type) : Type := list event * ending A.

Definition ret {A} (a : A) : M A := ([], Continue a).

Definition bind {A B} (m : M A) (k : A -> M B) : M B :=
  match m with
  | (tr, Continue a) => let '(tr', e) := k a in (tr ++ tr', e)
  | (tr, Exit c) => (tr, Exit c)
  end.

Definition emit (e : event) : M unit := ([e], Continue tt).

(** [os.Exit(code)]. *)
Definition osExit {A} (code : Z) : M A := ([], Exit code).

(** [log.Fatalf] and [log.Fatal] write the message and call [os.Exit(1)]. *)
Definition Fatalf {A} (msg : fatal) : M A := ([LogFatal msg], Exit 1).

Notation "x <- m ;; k" := (bind m (fun x => k))
  (at level 20, m at level 99, k at level 200, only parsing).
Notation "m ;;; k" := (bind m (fun _ => k))
  (at level 20, k at level 200, only parsing).

Definition trace {A} (m : M A) : list event := fst m.

(** The exit status of the process: 0 when [main] returns. *)
Definition exit_status {A} (m : M A) : Z :=
  match snd m with
  | Continue _ => 0
  | Exit c => c
  end.

(** *** The planner (main.go, lines 77-114) *)

(** The state of the two loops: the map and the slice kept for logging. *)
Definition plan : Type := gmap Z Ranges * list Z.

Definition rng (f : Flags) : Range :=
  mkRange (startInclusive (currentUnixTimestamp f) (blockSize f))
          (endExclusive (currentUnixTimestamp f) (blockSize f)).

(** [shardTimeRanges[id] = xtime.NewRanges().AddRange(rng)] and
    [shardsAll = append(shardsAll, id)]. *)
Definition addShard (r : Range) (id : Z) (st : plan) : plan :=
  (<[id := AddRange NewRanges r]> (fst st), snd st ++ [id]).

(** The loop over the comma-separated list (lines 90-102). *)
Fixpoint shardListLoop (all : gostring) (r : Range) (toks : list gostring)
    (st : plan) : M plan :=
  match toks with
  | [] => ret st
  | shard :: toks' =>
      let shard := TrimSpace shard in
      if is_empty shard then Fatalf (InvalidShardList all)
      else
        match Atoi shard with
        | inr err => Fatalf (CouldNotParseShard shard err)
        | inl value => shardListLoop all r toks' (addShard r (uint32 value) st)
        end
  end.

(** The loop [for i := uint32(0); i < uint32(shardsCount); i++] (lines
    105-109); [fuel] bounds the number of rounds. *)
Fixpoint shardCountLoop (fuel : nat) (r : Range) (i bound : Z) (st : plan) : plan :=
  match fuel with
  | O => st
  | S fuel' =>
      if i <? bound
      then shardCountLoop fuel' r (uint32 (i + 1)) bound (addShard r i st)
      else st
  end.

Definition planner (f : Flags) : M plan :=
  let st : plan := (∅, []) in
  if negb (is_empty (TrimSpace (shards f))) then
    shardListLoop (shards f) (rng f) (Split (shards f) ",") st
  else if shardsCount f >? 0 then
    let bound := uint32 (shardsCount f) in
    ret (shardCountLoop (Z.to_nat bound) (rng f) (uint32 0) bound st)
  else
    emit (LogInfo (str "Either the shards or shards-count argument need to be valid")) ;;;
    emit Usage ;;;
    osExit 1.

(** *** The invoker and the reporter (main.go, lines 116-233)

    The pools, which no call below observes, and the per-shard lines of the
    final report are left out. *)
Definition invoke (f : Flags) (st : plan) : M unit :=
  let shardTimeRanges := fst st in
  emit (LogConfigured (pathPrefix f) (namespaceStr f) (snd st)) ;;;
  let retentionOpts :=
    mkRetentionOptions (blockSize f) (bootstrapRetention f) (1 * Minute) (1 * Minute) in
  let opts := mkOptions (pathPrefix f) (flushSize f) (blockSize f) in
  emit (LogInfo (str "bootstrapping")) ;;;
  emit (CallNewCommitLogBootstrapper opts) ;;;
  match NewCommitLogBootstrapper opts with
  | inr err => Fatalf (FatalError err)
  | inl source =>
      let runOpts := mkRunOptions false in
      emit (CallNewMetadata (namespaceStr f) retentionOpts) ;;;
      match NewMetadata (namespaceStr f) retentionOpts with
      | inr err => Fatalf (FatalError err)
      | inl nsMetadata =>
          emit (CallBootstrap nsMetadata shardTimeRanges runOpts) ;;;
          match Bootstrap source nsMetadata shardTimeRanges runOpts with
          | inr err => Fatalf (FailedToBootstrap err)
          | inl result =>
              emit (LogBootstrapped (ShardResultsLen result) (UnfulfilledLen result))
          end
      end
  end.

(** *** The whole of [main], from the parsed flags on (main.go, lines 47-234)

    [main] here starts where the flags have their values: [flag.Parse] (line
    46), which on a malformed command line prints the usage text and ends the
    process with status 2 by itself, comes before it and is not part of the
    model.  The debug listener runs beside [main] and shares nothing with it;
    it is not part of the model either, which is that of a run with the
    debug-listen-address flag left empty. *)
Definition main (f : Flags) : M unit :=
  (if is_empty (pathPrefix f) || is_empty (namespaceStr f)
   then emit Usage ;;; osExit 1
   else ret tt) ;;;
  st <- planner f ;;
  invoke f st.

(** *** Notions the properties are stated with *)

(** Both loops add the shards of a list one by one. *)
Definition addShards (r : Range) (ids : list Z) (st : plan) : plan :=
  foldl (fun st id => addShard r id st) st ids.

(** The value the planner stores under every key: the collection made of the
    one range. *)
Definition singleRange (f : Flags) : Ranges := AddRange NewRanges (rng f).

(** The bootstrap attempts of a run. *)
Definition is_bootstrap (e : event) : bool :=
  match e with CallBootstrap _ _ _ => true | _ => false end.

Definition is_pipeline_call (e : event) : bool :=
  match e with
  | CallNewCommitLogBootstrapper _ | CallNewMetadata _ _ | CallBootstrap _ _ _ => true
  | _ => false
  end.

Definition bootstrap_attempts {A} (m : M A) : nat :=
  length (filter (fun e => is_bootstrap e = true) (trace m)).


(** ** Fixed-width integers: the conversions are the identity in range *)

Lemma int64_id x : in_int64 x -> int64 x = x.
Proof. intros H. unfold_ints. rewrite Z.mod_small; lia. Qed.

Lemma int32_id x : - 2 ^ 31 <= x < 2 ^ 31 -> int32 x = x.
Proof.
  change (2 ^ 31) with 2147483648. intros H. unfold_ints.
  rewrite Z.mod_small; lia.
Qed.

Lemma uint64_id x : 0 <= x < 2 ^ 64 -> uint64 x = x.
Proof. intros H. unfold_ints. apply Z.mod_small; lia. Qed.

Lemma uint32_id x : 0 <= x < 2 ^ 32 -> uint32 x = x.
Proof. intros H. unfold_ints. apply Z.mod_small; lia. Qed.

Lemma uint32_range x : 0 <= uint32 x < 2 ^ 32.
Proof. unfold uint32. apply Z.mod_pos_bound. reflexivity. Qed.

Lemma int64_range x : in_int64 (int64 x).
Proof.
  unfold_ints.
  pose proof (Z.mod_pos_bound (x + 9223372036854775808) 18446744073709551616).
  lia.
Qed.

(** Wrapping an operand first does not change a wrapped sum. *)
Lemma int64_add_int64 a b : int64 (a + int64 b) = int64 (a + b).
Proof.
  unfold_ints. f_equal.
  replace (a + ((b + 9223372036854775808) mod 18446744073709551616 - 9223372036854775808)
           + 9223372036854775808)
    with (a + (b + 9223372036854775808) mod 18446744073709551616) by lia.
  rewrite Z.add_mod_idemp_r by lia. f_equal. lia.
Qed.

(** ** Package [time]: what [Add], [div] and [Truncate] compute *)

Lemma Second_pos : 0 < Second.
Proof. reflexivity. Qed.

(** [abs_ns] determines a well-formed time. *)
Lemma wf_sec_nsec t :
  wf t -> sec t = abs_ns t / Second /\ nsec t = abs_ns t mod Second.
Proof.
  intros [_ Hn]. unfold abs_ns.
  rewrite Z.mul_comm.
  split.
  - apply (Z.div_unique_pos _ _ (sec t) (nsec t)); lia.
  - apply (Z.mod_unique_pos _ _ (sec t) (nsec t)); lia.
Qed.

Lemma abs_ns_inj t u : wf t -> wf u -> abs_ns t = abs_ns u -> t = u.
Proof.
  intros Ht Hu E.
  destruct (wf_sec_nsec t Ht) as [Hs Hn], (wf_sec_nsec u Hu) as [Hs' Hn'].
  destruct t, u; simpl in *. rewrite E in *. congruence.
Qed.

(** [Add] adds exactly, as long as the seconds of the sum fit in [int64]. *)
Lemma Add_spec t d :
  wf t -> in_int64 ((abs_ns t + d) / Second) ->
  wf (Add t d) /\ abs_ns (Add t d) = abs_ns t + d.
Proof.
  intros [Hs Hn] Hfit.
  pose proof (Z.quot_rem' d Second) as Hqr.
  pose proof (Z.rem_bound_abs d Second ltac:(discriminate)) as Hrb.
  change (Z.abs Second) with Second in Hrb.
  assert (Hr : - Second < Z.rem d Second < Second) by lia.
  set (q := Z.quot d Second) in *. set (r := Z.rem d Second) in *.
  assert (Hlt : Second = 1000000000) by reflexivity.
  unfold Add. fold q. fold r.
  rewrite (int32_id r) by (change (2 ^ 31) with 2147483648; lia).
  rewrite (int32_id (nsec t + r)) by (change (2 ^ 31) with 2147483648; lia).
  assert (Hkey : forall s' n', 0 <= n' < Second ->
             s' * Second + n' = abs_ns t + d ->
             int64 s' = s' /\ in_int64 s').
  { intros s' n' Hn' E.
    assert (s' = (abs_ns t + d) / Second) as ->.
    { apply (Z.div_unique_pos _ _ s' n'); lia. }
    split; [apply int64_id|]; assumption. }
  unfold abs_ns in *.
  destruct (Z.geb_spec (nsec t + r) Second) as [Hge|Hge].
  - rewrite int64_add_int64.
    rewrite (int32_id (nsec t + r - Second))
      by (change (2 ^ 31) with 2147483648; lia).
    destruct (Hkey (sec t + (q + 1)) (nsec t + r - Second)) as [-> Hin]; [lia|lia|].
    unfold wf; simpl. split; [split; [assumption|lia]|lia].
  - destruct (Z.ltb_spec (nsec t + r) 0) as [Hneg|Hneg].
    + rewrite int64_add_int64.
      rewrite (int32_id (nsec t + r + Second))
        by (change (2 ^ 31) with 2147483648; lia).
      destruct (Hkey (sec t + (q - 1)) (nsec t + r + Second)) as [-> Hin]; [lia|lia|].
      unfold wf; simpl. split; [split; [assumption|lia]|lia].
    + destruct (Hkey (sec t + q) (nsec t + r)) as [-> Hin]; [lia|lia|].
      unfold wf; simpl. split; [split; [assumption|lia]|lia].
Qed.

(** The remainder of [div] on a non-negative count of seconds and
    nanoseconds: the three cases of the source agree with [mod]. *)
Lemma div_cases_spec s n d :
  0 <= s <= maxInt64 -> 0 <= n < Second -> 0 < d <= maxInt64 ->
  (if (d <? Second) && (Z.rem Second (int64 (d + d)) =? 0) then
     Z.rem n (int32 d)
   else if Z.rem d Second =? 0 then
     int64 (int64 (Z.rem s (Z.quot d Second) * Second) + n)
   else (uint64 s * Second + uint64 n) mod uint64 d)
  = (s * Second + n) mod d.
Proof.
  intros Hs Hn Hd.
  assert (HS : Second = 1000000000) by reflexivity.
  destruct (Z.ltb_spec d Second) as [Hlt|Hge]; simpl.
  - rewrite (int64_id (d + d)) by (unfold_ints; lia).
    destruct (Z.eqb_spec (Z.rem Second (d + d)) 0) as [Hz|Hnz].
    + rewrite (int32_id d) by (change (2 ^ 31) with 2147483648; lia).
      rewrite Z.rem_mod_nonneg by lia.
      rewrite Z.rem_mod_nonneg in Hz by lia.
      apply Z.mod_divide in Hz; [|lia].
      destruct Hz as [k Hk].
      replace (s * Second + n) with (n + (s * k * 2) * d) by (rewrite Hk; ring).
      rewrite Z.mod_add by lia. reflexivity.
    + destruct (Z.eqb_spec (Z.rem d Second) 0) as [Hz|_].
      * exfalso. rewrite Z.rem_mod_nonneg in Hz by lia.
        rewrite Z.mod_small in Hz by lia. lia.
      * rewrite !uint64_id; [reflexivity | unfold_ints; lia ..].
  - destruct (Z.eqb_spec (Z.rem d Second) 0) as [Hz|_].
    + rewrite Z.rem_mod_nonneg in Hz by lia.
      rewrite Z.quot_div_nonneg by lia.
      set (d1 := d / Second).
      assert (Hd1 : d = Second * d1).
      { unfold d1. pose proof (Z.div_mod d Second ltac:(lia)). lia. }
      assert (Hd1pos : 0 < d1) by nia.
      rewrite Z.rem_mod_nonneg by lia.
      pose proof (Z.mod_pos_bound s d1 Hd1pos) as Hm.
      pose proof (Z.div_mod s d1 ltac:(lia)) as Hdm.
      assert (Hb : 0 <= s mod d1 * Second + n < d) by nia.
      rewrite Z.add_comm, int64_add_int64, Z.add_comm.
      rewrite int64_id by (unfold_ints; lia).
      apply (Z.mod_unique_pos _ _ (s / d1)); [lia|].
      rewrite Hd1. nia.
    + rewrite !uint64_id; [reflexivity | unfold_ints; lia ..].
Qed.

Lemma div_spec t d :
  wf t -> minInt64 < sec t -> 0 < d <= maxInt64 ->
  div t d = abs_ns t mod d.
Proof.
  intros [Hs Hn] Hmin Hd.
  assert (HS : Second = 1000000000) by reflexivity.
  unfold div, abs_ns.
  destruct (Z.ltb_spec (sec t) 0) as [Hneg|Hpos].
  - rewrite (int64_id (- sec t)) by (unfold_ints; lia).
    rewrite (int32_id (- nsec t)) by (change (2 ^ 31) with 2147483648; lia).
    assert (Hopp : forall s n, 0 <= s <= maxInt64 -> 0 <= n < Second ->
              s * Second + n = - (sec t * Second + nsec t) ->
              (let r := (s * Second + n) mod d in
               if true && negb (r =? 0) then int64 (d - r) else r)
              = (sec t * Second + nsec t) mod d).
    { intros s n Hs' Hn' E. cbv zeta. rewrite E. simpl andb.
      pose proof (Z.mod_pos_bound (- (sec t * Second + nsec t)) d ltac:(lia)) as Hb.
      destruct (Z.eqb_spec ((- (sec t * Second + nsec t)) mod d) 0) as [Hz|Hnz]; simpl.
      - rewrite Hz.
        replace (sec t * Second + nsec t) with (- - (sec t * Second + nsec t)) by lia.
        rewrite Z.mod_opp_l_z; [reflexivity | lia | exact Hz].
      - rewrite int64_id by (unfold_ints; lia).
        replace (sec t * Second + nsec t) with (- - (sec t * Second + nsec t)) at 2 by lia.
        rewrite (Z.mod_opp_l_nz (- (sec t * Second + nsec t))); [reflexivity | lia | exact Hnz]. }
    destruct (Z.ltb_spec (- nsec t) 0) as [Hn0|Hn0].
    + rewrite (int64_id (- sec t - 1)) by (unfold_ints; lia).
      rewrite (int32_id (- nsec t + Second)) by (change (2 ^ 31) with 2147483648; lia).
      rewrite div_cases_spec by (unfold_ints; lia).
      apply Hopp; unfold_ints; lia.
    + rewrite div_cases_spec by (unfold_ints; lia).
      apply Hopp; unfold_ints; lia.
  - rewrite div_cases_spec by (unfold_ints; lia).
    reflexivity.
Qed.

(** [Truncate] on a positive duration yields the greatest multiple of it
    that is not after [t], counted from the zero time. *)
Lemma Truncate_spec t d :
  wf t -> minInt64 < sec t -> 0 < d <= maxInt64 ->
  in_int64 (truncated_down (abs_ns t) d / Second) ->
  wf (Truncate t d) /\ abs_ns (Truncate t d) = truncated_down (abs_ns t) d.
Proof.
  intros Hwf Hmin Hd Hfit.
  unfold Truncate.
  destruct (Z.leb_spec d 0) as [?|_]; [lia|].
  rewrite div_spec by assumption.
  pose proof (Z.mod_pos_bound (abs_ns t) d ltac:(lia)) as Hb.
  rewrite int64_id by (unfold_ints; lia).
  assert (E : abs_ns t + - (abs_ns t mod d) = truncated_down (abs_ns t) d).
  { unfold truncated_down. rewrite Z.abs_eq by lia. lia. }
  destruct (Add_spec t (- (abs_ns t mod d)) Hwf) as [Hw Ha].
  - rewrite E. exact Hfit.
  - split; [exact Hw|]. rewrite Ha. exact E.
Qed.

Lemma Truncate_nonpos t d : d <= 0 -> Truncate t d = t.
Proof. intros H. unfold Truncate. destruct (Z.leb_spec d 0); [reflexivity|lia]. Qed.

(** [truncated_down] is what its name says. *)
Lemma truncated_down_greatest x d :
  d <> 0 ->
  (d | truncated_down x d) /\ truncated_down x d <= x /\
  forall m, (d | m) -> m <= x -> m <= truncated_down x d.
Proof.
  intros Hd. unfold truncated_down.
  assert (Ha : 0 < Z.abs d) by lia.
  pose proof (Z.mod_pos_bound x (Z.abs d) Ha) as Hb.
  pose proof (Z.div_mod x (Z.abs d) ltac:(lia)) as Hdm.
  split; [|split].
  - apply Z.divide_abs_l.
    exists (x / Z.abs d). lia.
  - lia.
  - intros m Hm Hle. apply Z.divide_abs_l in Hm. destruct Hm as [k ->].
    assert (k <= x / Z.abs d); [|nia].
    apply Z.div_le_lower_bound; lia.
Qed.

Lemma div_Second_in_int64 x :
  minInt64 * Second <= x < (maxInt64 + 1) * Second -> in_int64 (x / Second).
Proof.
  intros [Hlo Hhi]. split.
  - apply Z.div_le_lower_bound; [reflexivity | lia].
  - assert (x / Second < maxInt64 + 1); [|lia].
    apply Z.div_lt_upper_bound; [reflexivity | lia].
Qed.

Lemma now_spec ts :
  in_int64 (ts + unixToInternal) ->
  now ts = mkTime (ts + unixToInternal) 0.
Proof.
  intros H. unfold now, Unix. simpl.
  rewrite int64_id by assumption. reflexivity.
Qed.

(** The window on the flags that fit: both ends are well-formed times, the
    reference time is truncated down, and one block is taken off before it
    and two are added after it. *)
Lemma window_spec ts bs :
  window_fits ts bs ->
  let t0 := truncated_down (abs_ns (now ts)) bs in
  abs_ns (now ts) = (ts + unixToInternal) * Second /\
  wf (Truncate (now ts) bs) /\ abs_ns (Truncate (now ts) bs) = t0 /\
  wf (startInclusive ts bs) /\ abs_ns (startInclusive ts bs) = t0 - bs /\
  wf (endExclusive ts bs) /\ abs_ns (endExclusive ts bs) = t0 + 2 * bs.
Proof.
  intros [Hbs Hts] t0.
  assert (HS : Second = 1000000000) by reflexivity.
  assert (HU : unixToInternal = 62135596800) by reflexivity.
  assert (Hnow : now ts = mkTime (ts + unixToInternal) 0).
  { apply now_spec. unfold_ints. lia. }
  assert (Hwf : wf (now ts)).
  { rewrite Hnow. unfold wf; simpl. unfold_ints. lia. }
  assert (Habs : abs_ns (now ts) = (ts + unixToInternal) * Second).
  { rewrite Hnow. unfold abs_ns; simpl. lia. }
  assert (Ht0 : abs_ns (now ts) - bs < t0 <= abs_ns (now ts)).
  { unfold t0, truncated_down. rewrite Z.abs_eq by lia.
    pose proof (Z.mod_pos_bound (abs_ns (now ts)) bs ltac:(lia)). lia. }
  destruct (Truncate_spec (now ts) bs) as [Hw Ha].
  - exact Hwf.
  - rewrite Hnow; simpl. unfold_ints. lia.
  - unfold_ints. lia.
  - apply div_Second_in_int64. fold t0. unfold_ints. lia.
  - fold t0 in Ha.
    unfold startInclusive, endExclusive.
    rewrite (int64_id (- bs)) by (unfold_ints; lia).
    rewrite (int64_id (bs * 2)) by (unfold_ints; lia).
    destruct (Add_spec (Truncate (now ts) bs) (- bs) Hw) as [Hw1 Ha1].
    { apply div_Second_in_int64. rewrite Ha. unfold_ints. lia. }
    destruct (Add_spec (Truncate (now ts) bs) (bs * 2) Hw) as [Hw2 Ha2].
    { apply div_Second_in_int64. rewrite Ha. unfold_ints. lia. }
    split; [exact Habs|]. split; [exact Hw|]. split; [exact Ha|].
    split; [exact Hw1|]. split; [lia|]. split; [exact Hw2|lia].
Qed.

(** On well-formed times [Before] is the order of the instants. *)
Lemma Before_abs_ns t u :
  wf t -> wf u -> Before t u = true <-> abs_ns t < abs_ns u.
Proof.
  intros [_ Ht] [_ Hu]. unfold Before, abs_ns.
  assert (HS : Second = 1000000000) by reflexivity.
  rewrite orb_true_iff, andb_true_iff, !Z.ltb_lt, Z.eqb_eq. nia.
Qed.

(** ** Package [strings]: the trimming runs to its end *)

Lemma strip_prefix_length p s r :
  strip_prefix p s = Some r -> length s = (length p + length r)%nat.
Proof.
  revert s. induction p as [|b p IH]; intros s H; simpl in *.
  - by injection H as ->.
  - destruct s as [|c s]; [discriminate|].
    destruct (byte_val c =? b); [|discriminate].
    simpl. by rewrite (IH s H).
Qed.

Lemma strip_space_shorter encs s r :
  Forall (fun p => p <> []) encs ->
  strip_space encs s = Some r -> (length r < length s)%nat.
Proof.
  induction 1 as [|p encs Hp _ IH]; simpl; [discriminate|].
  destruct (strip_prefix p s) as [r'|] eqn:E; [|exact IH].
  intros [= ->]. apply strip_prefix_length in E.
  destruct p; [contradiction|]. simpl in E. lia.
Qed.

(** With as much fuel as the string is long, what is left starts with no
    space. *)
Lemma trim_front_done fuel encs s :
  Forall (fun p => p <> []) encs -> (length s <= fuel)%nat ->
  strip_space encs (trim_front fuel encs s) = None.
Proof.
  intros Henc. revert s. induction fuel as [|fuel IH]; intros s Hlen; simpl.
  - destruct s; [|simpl in Hlen; lia].
    destruct (strip_space encs []) as [r|] eqn:E; [|reflexivity].
    apply (strip_space_shorter _ _ _ Henc) in E. simpl in E. lia.
  - destruct (strip_space encs s) as [r|] eqn:E; [|exact E].
    apply IH. apply (strip_space_shorter _ _ _ Henc) in E. lia.
Qed.

Lemma spaceEncodings_nonempty : Forall (fun p => p <> []) spaceEncodings.
Proof.
  vm_compute. repeat (constructor; [discriminate|]). constructor.
Qed.

Lemma TrimLeftSpace_done s :
  strip_space spaceEncodings (TrimLeftSpace s) = None.
Proof. apply trim_front_done; [apply spaceEncodings_nonempty | reflexivity]. Qed.

Lemma TrimRightSpace_done s :
  strip_space (map (@rev Z) spaceEncodings) (rev (TrimRightSpace s)) = None.
Proof.
  unfold TrimRightSpace. rewrite rev_involutive.
  apply trim_front_done; [|by rewrite length_rev].
  vm_compute. repeat (constructor; [discriminate|]). constructor.
Qed.

(** ** Package [strconv]: [Atoi] reads the signed decimal integers of 64
    bits *)

Lemma decimal_from_ge n s :
  0 <= n -> forallb is_digit s = true -> n <= decimal_from n s.
Proof.
  revert n. induction s as [|c s IH]; intros n Hn Hd; simpl in *; [lia|].
  apply andb_true_iff in Hd as [Hc Hd]. unfold is_digit in Hc.
  apply andb_true_iff in Hc as [H1 H2]. apply Z.leb_le in H1, H2.
  specialize (IH (n * 10 + (byte_val c - 48)) ltac:(lia) Hd).
  unfold decimal_from in *. lia.
Qed.

Lemma parseDigits_spec n s v :
  0 <= n <= maxUint64 ->
  parseDigits n s = inl v <->
  forallb is_digit s = true /\ v = decimal_from n s /\ v <= maxUint64.
Proof.
  revert n. induction s as [|c s IH]; intros n Hn; simpl.
  - split; [intros [= <-]; repeat split; lia | intros (_ & -> & _); reflexivity].
  - unfold is_digit at 1.
    destruct ((48 <=? byte_val c) && (byte_val c <=? 57)) eqn:Hc; simpl;
      [|split; [discriminate | intros [? _]; discriminate]].
    pose proof Hc as Hc'. apply andb_true_iff in Hc' as [H1 H2].
    apply Z.leb_le in H1, H2.
    assert (Hcut : maxUint64 / 10 + 1 = 1844674407370955162) by reflexivity.
    assert (Hmax : maxUint64 = 18446744073709551615) by reflexivity.
    rewrite Hcut.
    destruct (Z.geb_spec n 1844674407370955162) as [Hbig|Hsmall].
    + split; [discriminate|]. intros (Hd & -> & Hle). exfalso.
      pose proof (decimal_from_ge (n * 10 + (byte_val c - 48)) s ltac:(lia) Hd).
      unfold decimal_from in *. simpl in *. lia.
    + destruct (Z.gtb_spec (n * 10 + (byte_val c - 48)) maxUint64) as [Hov|Hfit].
      * split; [discriminate|]. intros (Hd & -> & Hle). exfalso.
        pose proof (decimal_from_ge (n * 10 + (byte_val c - 48)) s ltac:(lia) Hd).
        unfold decimal_from in *. simpl in *. lia.
      * rewrite IH by lia. reflexivity.
Qed.

Lemma is_digit_not_sign c :
  is_digit c = true -> Ascii.eqb c "+" = false /\ Ascii.eqb c "-" = false.
Proof.
  intros H. split.
  - destruct (Ascii.eqb_spec c "+") as [->|]; [discriminate H | reflexivity].
  - destruct (Ascii.eqb_spec c "-") as [->|]; [discriminate H | reflexivity].
Qed.

(** [Atoi] succeeds exactly on an optional sign followed by one or more
    decimal digits that write an integer of the [int64] range, and returns
    that integer. *)
Lemma Atoi_spec s v :
  Atoi s = inl v <->
  exists (neg : bool) (body : gostring),
    (s = body /\ neg = false \/ s = "+"%char :: body /\ neg = false \/
     s = "-"%char :: body /\ neg = true) /\
    body <> [] /\ forallb is_digit body = true /\
    v = (if neg then - decimal body else decimal body) /\ in_int64 v.
Proof.
  assert (H0 : 0 <= 0 <= maxUint64) by (unfold_ints; lia).
  assert (Hread : forall (neg : bool) body,
            body <> [] ->
            match ParseUint10 body with
            | inr ErrSyntax => inr ErrSyntax
            | inr ErrRange => inr ErrRange
            | inl un =>
                if negb neg && (un >=? 2 ^ 63) then inr ErrRange
                else if neg && (un >? 2 ^ 63) then inr ErrRange
                else inl (if neg then int64 (- int64 un) else int64 un)
            end = inl v <->
            forallb is_digit body = true /\
            v = (if neg then - decimal body else decimal body) /\ in_int64 v).
  { intros neg body Hne. unfold ParseUint10.
    destruct body as [|c body']; [contradiction|].
    set (body := c :: body') in *. clearbody body.
    pose proof (parseDigits_spec 0 body) as Hspec. fold (decimal body) in Hspec.
    destruct (parseDigits 0 body) as [un|[|]] eqn:E.
    - destruct (proj1 (Hspec un H0) eq_refl) as (Hd & Hun & Hle).
      pose proof (decimal_from_ge 0 body ltac:(lia) Hd) as Hge.
      fold (decimal body) in Hge. subst un.
      change (2 ^ 63) with 9223372036854775808.
      destruct neg; simpl.
      + destruct (Z.gtb_spec (decimal body) 9223372036854775808) as [Hov|Hfit].
        * split; [discriminate|]. intros (_ & -> & Hin). unfold_ints. lia.
        * assert (Hv : int64 (- int64 (decimal body)) = - decimal body).
          { destruct (Z.eq_dec (decimal body) 9223372036854775808) as [->|Hlt].
            - reflexivity.
            - rewrite (int64_id (decimal body)) by (unfold_ints; lia).
              apply int64_id. unfold_ints. lia. }
          rewrite Hv. split.
          -- intros [= <-]. repeat split; [exact Hd | unfold_ints; lia ..].
          -- intros (_ & -> & _). reflexivity.
      + destruct (Z.geb_spec (decimal body) 9223372036854775808) as [Hov|Hfit].
        * split; [discriminate|]. intros (_ & -> & Hin). unfold_ints. lia.
        * rewrite (int64_id (decimal body)) by (unfold_ints; lia). split.
          -- intros [= <-]. repeat split; [exact Hd | unfold_ints; lia ..].
          -- intros (_ & -> & _). reflexivity.
    - split; [discriminate|]. intros (Hd & -> & Hin). exfalso.
      assert (Hle : decimal body <= maxUint64) by (destruct neg; unfold_ints; lia).
      pose proof (proj2 (Hspec (decimal body) H0) (conj Hd (conj eq_refl Hle))).
      discriminate.
    - split; [discriminate|]. intros (Hd & -> & Hin). exfalso.
      assert (Hle : decimal body <= maxUint64) by (destruct neg; unfold_ints; lia).
      pose proof (proj2 (Hspec (decimal body) H0) (conj Hd (conj eq_refl Hle))).
      discriminate. }
  unfold Atoi, ParseInt10. destruct s as [|c s'].
  - split; [discriminate|].
    intros (neg & body & [[<- _]|[[? _]|[? _]]] & Hne & _); [contradiction|discriminate..].
  - destruct (Ascii.eqb_spec c "+") as [->|Hplus].
    + destruct s' as [|c' s''].
      * split; [discriminate|].
        intros (neg & body & [[<- _]|[[[= <-] _]|[? _]]] & Hne & Hd & _);
          [discriminate Hd | contradiction | discriminate].
      * rewrite (Hread false (c' :: s'')) by discriminate. split.
        -- intros (Hd & Hv & Hin). exists false, (c' :: s''). split; [auto|].
           split; [discriminate|]. auto.
        -- intros (neg & body & [[<- _]|[[[= <-] ->]|[? _]]] & Hne & Hd & Hv & Hin);
             [discriminate Hd | auto | discriminate].
    + destruct (Ascii.eqb_spec c "-") as [->|Hminus].
      * destruct s' as [|c' s''].
        -- split; [discriminate|].
           intros (neg & body & [[<- _]|[[? _]|[[= <-] _]]] & Hne & Hd & _);
             [discriminate Hd | discriminate | contradiction].
        -- rewrite (Hread true (c' :: s'')) by discriminate. split.
           ++ intros (Hd & Hv & Hin). exists true, (c' :: s''). split; [auto|].
              split; [discriminate|]. auto.
           ++ intros (neg & body & [[<- _]|[[? _]|[[= <-] ->]]] & Hne & Hd & Hv & Hin);
                [discriminate Hd | discriminate | auto].
      * rewrite (Hread false (c :: s')) by discriminate. split.
        -- intros (Hd & Hv & Hin). exists false, (c :: s'). split; [auto|].
           split; [discriminate|]. auto.
        -- intros (neg & body & [[<- ->]|[[[= ? ?] _]|[[= ? ?] _]]] & Hne & Hd & Hv & Hin);
             [auto | congruence ..].
Qed.

(** ** The planner: what the two loops build *)

Lemma is_empty_true s : is_empty s = true <-> s = [].
Proof. destruct s; simpl; split; congruence. Qed.

Lemma is_empty_false s : is_empty s = false <-> s <> [].
Proof. destruct s; simpl; split; congruence. Qed.

Lemma addShards_lookup r ids st k :
  fst (addShards r ids st) !! k =
  if decide (k ∈ ids) then Some (AddRange NewRanges r) else fst st !! k.
Proof.
  revert st. induction ids as [|id ids IH]; intros st; simpl.
  - destruct (decide (k ∈ [])) as [Hin|_]; [|reflexivity].
    by apply elem_of_nil in Hin.
  - unfold addShards in *. simpl. rewrite IH. simpl.
    destruct (decide (k ∈ ids)) as [Hin|Hout].
    + rewrite decide_True; [reflexivity | by right].
    + destruct (decide (k = id)) as [->|Hne].
      * rewrite lookup_insert_eq, decide_True; [reflexivity | by left].
      * rewrite lookup_insert_ne by congruence.
        rewrite decide_False; [reflexivity|].
        intros [?|?]%elem_of_cons; congruence.
Qed.

Lemma addShards_snd r ids st : snd (addShards r ids st) = snd st ++ ids.
Proof.
  revert st. induction ids as [|id ids IH]; intros st; simpl.
  - by rewrite app_nil_r.
  - unfold addShards in *. simpl. rewrite IH. simpl.
    by rewrite <- app_assoc.
Qed.

Lemma addShards_dom r ids st :
  dom (fst (addShards r ids st)) = list_to_set ids ∪ dom (fst st).
Proof.
  apply set_eq. intros k.
  rewrite elem_of_dom, addShards_lookup, elem_of_union, elem_of_list_to_set, elem_of_dom.
  destruct (decide (k ∈ ids)); [|tauto].
  split; [by left | by eauto].
Qed.

Lemma remove_dups_id (l : list Z) : NoDup l -> remove_dups l = l.
Proof.
  induction 1 as [|x l Hx _ IH]; simpl; [reflexivity|].
  destruct (decide_rel elem_of x l); [contradiction|]. by rewrite IH.
Qed.

Lemma addShards_size r ids :
  size (fst (addShards r ids (∅, []))) = length (remove_dups ids).
Proof.
  rewrite <- size_dom, addShards_dom. simpl.
  rewrite dom_empty_L, (right_id_L ∅ (∪)).
  rewrite <- (size_list_to_set (C := gset Z) (remove_dups ids)) by apply NoDup_remove_dups.
  f_equal. apply set_eq. intros k.
  by rewrite !elem_of_list_to_set, elem_of_remove_dups.
Qed.

Lemma accepts_or_rejects tok : (exists id, accepts tok id) \/ rejects tok.
Proof.
  unfold accepts, rejects.
  destruct (TrimSpace tok) as [|c s] eqn:E; [by right; left|].
  destruct (Atoi (c :: s)) as [v|err] eqn:EA.
  - left. exists (uint32 v). split; [discriminate|]. by exists v.
  - right. right. by exists err.
Qed.

Lemma accepts_not_rejects tok id : accepts tok id -> ~ rejects tok.
Proof.
  intros [Hne (v & Hv & _)] [He|[err Herr]]; congruence.
Qed.

Lemma tokens_accepted_or_rejected toks :
  (exists ids, Forall2 accepts toks ids) \/ Exists rejects toks.
Proof.
  induction toks as [|tok toks IH].
  - left. exists []. constructor.
  - destruct (accepts_or_rejects tok) as [[id Hid]|Hrej].
    + destruct IH as [[ids Hids]|Hex].
      * left. exists (id :: ids). by constructor.
      * right. by apply Exists_cons_tl.
    + right. by apply Exists_cons_hd.
Qed.

Lemma shardListLoop_accepts all r toks ids st :
  Forall2 accepts toks ids ->
  shardListLoop all r toks st = ret (addShards r ids st).
Proof.
  intros H. revert st. induction H as [|tok id toks ids [Hne (v & Hv & ->)] _ IH];
    intros st; simpl.
  - reflexivity.
  - apply is_empty_false in Hne. rewrite Hne, Hv. apply IH.
Qed.

Lemma shardListLoop_rejects all r toks st :
  Exists rejects toks ->
  exists msg, shardListLoop all r toks st = Fatalf msg.
Proof.
  intros H. revert st. induction toks as [|tok toks IH]; intros st.
  - by apply Exists_nil in H.
  - simpl. destruct (is_empty (TrimSpace tok)) eqn:E; [by eexists|].
    destruct (Atoi (TrimSpace tok)) as [v|err] eqn:EA; [|by eexists].
    apply IH. apply Exists_cons in H as [[He|[err Herr]]|H]; [..|exact H].
    + apply is_empty_false in E. contradiction.
    + congruence.
Qed.

(** The count loop ends by its own test: the fuel it is given is enough, and
    it adds the identifiers from [i] up to the bound. *)
Lemma shardCountLoop_addShards fuel r i bound st :
  0 <= i <= bound -> bound < 2 ^ 32 -> (Z.to_nat (bound - i) <= fuel)%nat ->
  shardCountLoop fuel r i bound st = addShards r (seqZ i (bound - i)) st.
Proof.
  revert i st. induction fuel as [|fuel IH]; intros i st Hi Hb Hf; simpl.
  - rewrite seqZ_nil by lia. reflexivity.
  - destruct (Z.ltb_spec i bound) as [Hlt|Hge].
    + rewrite uint32_id by lia.
      rewrite IH by lia.
      rewrite (seqZ_cons i (bound - i)) by lia.
      unfold addShards. simpl.
      by replace (Z.pred (bound - i)) with (bound - (i + 1)) by lia.
    + rewrite seqZ_nil by lia. reflexivity.
Qed.

(** The three branches of the planner. *)
Lemma planner_list f :
  TrimSpace (shards f) <> [] ->
  planner f = shardListLoop (shards f) (rng f) (Split (shards f) ",") (∅, []).
Proof.
  intros H. unfold planner. apply is_empty_false in H. by rewrite H.
Qed.

Lemma planner_count f :
  TrimSpace (shards f) = [] -> 0 < shardsCount f ->
  planner f = ret (addShards (rng f) (seqZ 0 (uint32 (shardsCount f))) (∅, [])).
Proof.
  intros H Hc. unfold planner. apply is_empty_true in H. rewrite H. simpl.
  destruct (Z.gtb_spec (shardsCount f) 0) as [_|?]; [|lia].
  pose proof (uint32_range (shardsCount f)) as Hr.
  change (uint32 0) with 0.
  rewrite shardCountLoop_addShards by lia.
  by rewrite Z.sub_0_r.
Qed.

Lemma planner_usage f :
  TrimSpace (shards f) = [] -> shardsCount f <= 0 ->
  planner f =
    ([LogInfo (str "Either the shards or shards-count argument need to be valid");
      Usage], Exit 1).
Proof.
  intros H Hc. unfold planner. apply is_empty_true in H. rewrite H. simpl.
  destruct (Z.gtb_spec (shardsCount f) 0) as [?|_]; [lia|]. reflexivity.
Qed.

(** A planner that goes on has logged nothing and has added the shards of
    some list. *)
Lemma planner_cases f :
  (exists ids, planner f = ret (addShards (rng f) ids (∅, []))) \/
  (exists msg, planner f = Fatalf msg) \/
  planner f =
    ([LogInfo (str "Either the shards or shards-count argument need to be valid");
      Usage], Exit 1).
Proof.
  destruct (TrimSpace (shards f)) as [|c s] eqn:E.
  - destruct (Z_lt_le_dec 0 (shardsCount f)) as [Hc|Hc].
    + left. eexists. by apply planner_count.
    + right. right. by apply planner_usage.
  - assert (Hne : TrimSpace (shards f) <> []) by (rewrite E; discriminate).
    rewrite (planner_list f Hne).
    destruct (tokens_accepted_or_rejected (Split (shards f) ",")) as [[ids H]|H].
    + left. exists ids. by apply shardListLoop_accepts.
    + right. left. by apply shardListLoop_rejects.
Qed.

Lemma planner_continue f tr st :
  planner f = (tr, Continue st) ->
  tr = [] /\ exists ids, st = addShards (rng f) ids (∅, []).
Proof.
  intros H.
  destruct (planner_cases f) as [[ids E]|[[msg E]|E]]; rewrite E in H;
    unfold ret, Fatalf in H; [|discriminate..].
  injection H as <- <-. eauto.
Qed.

(** No branch of the planner calls the pipeline. *)
Lemma planner_no_pipeline_call f :
  Forall (fun e => is_pipeline_call e = false) (trace (planner f)).
Proof.
  destruct (planner_cases f) as [[ids E]|[[msg E]|E]]; rewrite E; simpl;
    repeat constructor.
Qed.

(** ** The claims about the window *)

(** C1 (amended): for every positive block size below 2^62 nanoseconds and
    every reference time given as a Unix timestamp between -2^62 and 2^62
    seconds, [startInclusive] is the reference time truncated down to the
    nearest multiple of the block size, minus the block size, and
    [endExclusive] is the same truncated time plus twice the block size.
    Instants are counted in nanoseconds from the zero time, as [Truncate]
    counts them. *)
Theorem C1_window_ends ts bs :
  window_fits ts bs ->
  abs_ns (now ts) = (ts + unixToInternal) * Second /\
  wf (startInclusive ts bs) /\ wf (endExclusive ts bs) /\
  abs_ns (startInclusive ts bs) = truncated_down (abs_ns (now ts)) bs - bs /\
  abs_ns (endExclusive ts bs) = truncated_down (abs_ns (now ts)) bs + 2 * bs.
Proof.
  intros H. destruct (window_spec ts bs H) as (Hn & _ & _ & Hw1 & Ha1 & Hw2 & Ha2).
  auto.
Qed.

(** C2 (amended): for every positive block size below 2^62 nanoseconds and
    every Unix timestamp between -2^62 and 2^62 seconds, the window is three
    block sizes long, and the truncated reference time is at or after
    [startInclusive] and before [endExclusive]. *)
Theorem C2_window_length ts bs :
  window_fits ts bs ->
  abs_ns (endExclusive ts bs) - abs_ns (startInclusive ts bs) = 3 * bs /\
  abs_ns (startInclusive ts bs) <= abs_ns (Truncate (now ts) bs)
    < abs_ns (endExclusive ts bs) /\
  Before (Truncate (now ts) bs) (startInclusive ts bs) = false /\
  Before (Truncate (now ts) bs) (endExclusive ts bs) = true.
Proof.
  intros H. pose proof H as [Hbs _].
  destruct (window_spec ts bs H) as (_ & Hw & Ha & Hw1 & Ha1 & Hw2 & Ha2).
  cbv zeta in *.
  split; [lia|]. split; [lia|]. split.
  - apply not_true_is_false. rewrite Before_abs_ns by assumption. lia.
  - apply Before_abs_ns; [assumption..|lia].
Qed.

(** ** The claims about the shard map *)

(** The list mode of the planner, with the stored value written [singleRange f]. *)
Lemma shard_list_plan f :
  TrimSpace (shards f) <> [] ->
  let toks := Split (shards f) "," in
  (Exists rejects toks ->
     exists msg, planner f = Fatalf msg /\ exit_status (planner f) = 1 /\
       (msg = InvalidShardList (shards f) \/
        exists tok err, tok ∈ toks /\ Atoi (TrimSpace tok) = inr err /\
          msg = CouldNotParseShard (TrimSpace tok) err)) /\
  (forall ids, Forall2 accepts toks ids ->
     exists m, planner f = ret (m, ids) /\
       forall k, m !! k = if decide (k ∈ ids) then Some (singleRange f) else None) /\
  (forall tok id, accepts tok id ->
     exists (neg : bool) (body : gostring),
       (TrimSpace tok = body /\ neg = false \/
        TrimSpace tok = "+"%char :: body /\ neg = false \/
        TrimSpace tok = "-"%char :: body /\ neg = true) /\
       body <> [] /\ forallb is_digit body = true /\
       in_int64 (if neg then - decimal body else decimal body) /\
       id = (if neg then - decimal body else decimal body) mod 2 ^ 32).
Proof.
  intros Hne toks. rewrite (planner_list f Hne). fold toks.
  split; [|split];
    [| | intros tok id [_ (v & Hv & ->)];
         apply Atoi_spec in Hv as (neg & body & Hs & Hb & Hd & -> & Hin);
         by exists neg, body].
  - intros Hex.
    assert (Hmsg : forall st, exists msg,
              shardListLoop (shards f) (rng f) toks st = Fatalf msg /\
              (msg = InvalidShardList (shards f) \/
               exists tok err, tok ∈ toks /\ Atoi (TrimSpace tok) = inr err /\
                 msg = CouldNotParseShard (TrimSpace tok) err)).
    { clear Hne. generalize dependent toks. intros toks Hex.
      induction toks as [|tok toks IH]; intros st.
      - by apply Exists_nil in Hex.
      - simpl. destruct (is_empty (TrimSpace tok)) eqn:E; [by eauto|].
        destruct (Atoi (TrimSpace tok)) as [v|err] eqn:EA.
        + assert (Hex' : Exists rejects toks).
          { apply Exists_cons in Hex as [[He|[err Herr]]|Hex]; [..|exact Hex].
            - apply is_empty_false in E. contradiction.
            - congruence. }
          destruct (IH Hex' (addShard (rng f) (uint32 v) st)) as (msg & Hm & Hwhy).
          exists msg. split; [exact Hm|].
          destruct Hwhy as [->|(tok' & err & Hin & Herr & ->)]; [by left|].
          right. exists tok', err. split; [by right|done].
        + eexists. split; [reflexivity|]. right. exists tok, err.
          split; [by left|done]. }
    destruct (Hmsg (∅, [])) as (msg & Hm & Hwhy).
    exists msg. rewrite Hm. auto.
  - intros ids Hids.
    rewrite (shardListLoop_accepts _ _ _ ids) by exact Hids.
    exists (fst (addShards (rng f) ids (∅, []))). split.
    + f_equal. rewrite (surjective_pairing (addShards _ _ _)) at 1.
      by rewrite addShards_snd.
    + intros k. rewrite addShards_lookup. simpl.
      by rewrite lookup_empty.
Qed.

Lemma addShards_values r ids k v :
  fst (addShards r ids (∅, [])) !! k = Some v -> v = AddRange NewRanges r.
Proof.
  rewrite addShards_lookup. simpl. rewrite lookup_empty.
  destruct (decide (k ∈ ids)); congruence.
Qed.

(** One round of the list loop. *)
Lemma shardListLoop_accept all r tok toks st v :
  TrimSpace tok <> [] -> Atoi (TrimSpace tok) = inl v ->
  shardListLoop all r (tok :: toks) st =
  shardListLoop all r toks (addShard r (uint32 v) st).
Proof.
  intros Hne Hv. simpl. apply is_empty_false in Hne. by rewrite Hne, Hv.
Qed.

Lemma shardListLoop_parse_error all r tok toks st err :
  TrimSpace tok <> [] -> Atoi (TrimSpace tok) = inr err ->
  shardListLoop all r (tok :: toks) st =
  Fatalf (CouldNotParseShard (TrimSpace tok) err).
Proof.
  intros Hne Hv. simpl. apply is_empty_false in Hne. by rewrite Hne, Hv.
Qed.

(** A planner that went through the list accepted every token. *)
Lemma planner_list_continue f tr st :
  TrimSpace (shards f) <> [] ->
  planner f = (tr, Continue st) ->
  Forall2 accepts (Split (shards f) ",") (snd st) /\
  st = addShards (rng f) (snd st) (∅, []).
Proof.
  intros Hne H. rewrite (planner_list f Hne) in H.
  destruct (tokens_accepted_or_rejected (Split (shards f) ",")) as [[ids Hids]|Hex].
  - rewrite (shardListLoop_accepts _ _ _ ids _ Hids) in H.
    injection H as _ <-. rewrite addShards_snd. simpl. by split.
  - destruct (shardListLoop_rejects (shards f) (rng f) _ (∅, []) Hex) as [msg Hm].
    rewrite Hm in H. discriminate.
Qed.

(** The entries of the map in list mode, with the stored value written
    [singleRange f]. *)
Lemma shard_list_entries_plan f :
  TrimSpace (shards f) <> [] ->
  (forall tr st, planner f = (tr, Continue st) ->
     Forall2 accepts (Split (shards f) ",") (snd st) /\
     dom (fst st) = list_to_set (snd st) /\
     size (fst st) = length (remove_dups (snd st)) /\
     forall k v, fst st !! k = Some v -> v = singleRange f) /\
  (forall c, planner (withShardsCount c f) = planner f) /\
  (shards f = str "5,5,7" ->
     planner f = ret ({[5 := singleRange f; 7 := singleRange f]}, [5; 5; 7]) /\
     size ({[5 := singleRange f; 7 := singleRange f]} : gmap Z Ranges) = 2%nat).
Proof.
  intros Hne. split; [|split].
  - intros tr st H.
    destruct (planner_list_continue f tr st Hne H) as [Hacc Hst].
    split; [exact Hacc|]. clear Hacc H.
    remember (snd st) as ids eqn:Eids. clear Eids. subst st. split; [|split].
    + rewrite addShards_dom. simpl. rewrite dom_empty_L. apply (right_id_L ∅ (∪)).
    + apply addShards_size.
    + intros k v. apply addShards_values.
  - intros c. apply is_empty_false in Hne.
    unfold planner. simpl. by rewrite Hne.
  - intros E. split.
    + rewrite (planner_list f Hne), E.
      rewrite (shardListLoop_accepts _ _ _ [5; 5; 7]).
      * unfold addShards, addShard, singleRange, ret. simpl.
        rewrite insert_insert_eq. by rewrite (insert_insert_ne _ 7 5).
      * replace (Split (str "5,5,7") ",") with [str "5"; str "5"; str "7"]
          by (vm_compute; reflexivity).
        constructor; [accept_token 5|].
        constructor; [accept_token 5|].
        constructor; [accept_token 7|]. constructor.
    + rewrite map_size_insert_None by (by rewrite lookup_singleton_ne).
      by rewrite map_size_singleton.
Qed.

(** The entries of the map in count mode, with the stored value written
    [singleRange f]. *)
Lemma shard_count_plan f :
  TrimSpace (shards f) = [] -> 0 < shardsCount f ->
  let n := shardsCount f mod 2 ^ 32 in
  (exists m, planner f = ret (m, seqZ 0 n) /\
     Z.of_nat (size m) = n /\
     forall k, m !! k = if decide (0 <= k < n) then Some (singleRange f) else None) /\
  (shardsCount f < 2 ^ 32 -> n = shardsCount f).
Proof.
  intros He Hc n.
  assert (Hn : 0 <= n < 2 ^ 32) by apply uint32_range.
  split.
  - exists (fst (addShards (rng f) (seqZ 0 n) (∅, []))).
    rewrite (planner_count f He Hc). fold n. split; [|split].
    + f_equal. rewrite (surjective_pairing (addShards _ _ _)) at 1.
      by rewrite addShards_snd.
    + rewrite addShards_size.
      rewrite (remove_dups_id _ (NoDup_seqZ 0 n)).
      rewrite length_seqZ. lia.
    + intros k. rewrite addShards_lookup. simpl. rewrite lookup_empty.
      destruct (decide (k ∈ seqZ 0 n)) as [Hin|Hout];
        rewrite elem_of_seqZ in *.
      * rewrite decide_True; [reflexivity | lia].
      * rewrite decide_False; [reflexivity | lia].
  - intros Hlt. apply Z.mod_small. lia.
Qed.

(** C3 (amended): when an explicit shard list is supplied, the planner splits
    it on commas and trims whitespace from each token; it exits fatally, with
    status 1, when some token is empty after trimming or is not read by
    [Atoi]; when every token is read, each value [v] is stored under the key
    [uint32 v], mapped to the collection made of the single range whose start
    is [startInclusive] and whose end is [endExclusive]; and a token is read
    exactly when what is left after trimming is an optional sign followed by
    decimal digits that write an integer of 64 bits, so every negative value
    of that range is read too. *)
Theorem C3_shard_list f :
  TrimSpace (shards f) <> [] ->
  let toks := Split (shards f) "," in
  (Exists rejects toks ->
     exists msg, planner f = Fatalf msg /\ exit_status (planner f) = 1 /\
       (msg = InvalidShardList (shards f) \/
        exists tok err, tok ∈ toks /\ Atoi (TrimSpace tok) = inr err /\
          msg = CouldNotParseShard (TrimSpace tok) err)) /\
  (forall ids, Forall2 accepts toks ids ->
     exists m, planner f = ret (m, ids) /\
       forall k, m !! k =
         if decide (k ∈ ids)
         then Some (AddRange NewRanges
                      (mkRange (startInclusive (currentUnixTimestamp f) (blockSize f))
                               (endExclusive (currentUnixTimestamp f) (blockSize f))))
         else None) /\
  (forall tok id,
     accepts tok id <->
     exists (neg : bool) (body : gostring),
       (TrimSpace tok = body /\ neg = false \/
        TrimSpace tok = "+"%char :: body /\ neg = false \/
        TrimSpace tok = "-"%char :: body /\ neg = true) /\
       body <> [] /\ forallb is_digit body = true /\
       in_int64 (if neg then - decimal body else decimal body) /\
       id = (if neg then - decimal body else decimal body) mod 2 ^ 32).
Proof.
  intros Hne toks.
  destruct (shard_list_plan f Hne) as (Hrej & Hacc & Hread). fold toks in Hrej, Hacc.
  split; [exact Hrej|]. split; [exact Hacc|].
  intros tok id. split; [apply Hread|].
  intros (neg & body & Hs & Hb & Hd & Hin & ->).
  assert (Hv : Atoi (TrimSpace tok) =
               inl (if neg then - decimal body else decimal body)).
  { apply Atoi_spec. by exists neg, body. }
  split.
  - destruct Hs as [[-> _]|[[-> _]|[-> _]]]; [exact Hb | discriminate..].
  - eexists. split; [exact Hv | reflexivity].
Qed.

(** C4 (amended): for every explicit shard list the map has exactly one entry
    per distinct shard identifier [uint32 v] of the values [v] read from the
    list: the keys are the identifiers of [shardsAll] and the size is the
    number of distinct ones, so values that agree modulo 2^32 collapse to one
    entry as duplicates do; each entry is mapped to the collection made of
    the single range whose start is [startInclusive] and whose end is
    [endExclusive]; the list takes precedence over the shard count, whatever
    its value; and the list "5,5,7" yields exactly the two entries for 5 and
    7. *)
Theorem C4_shard_list_entries f :
  TrimSpace (shards f) <> [] ->
  (forall tr st, planner f = (tr, Continue st) ->
     Forall2
       (fun tok id =>
          TrimSpace tok <> [] /\
          exists v, Atoi (TrimSpace tok) = inl v /\ id = v mod 2 ^ 32)
       (Split (shards f) ",") (snd st) /\
     dom (fst st) = list_to_set (snd st) /\
     size (fst st) = length (remove_dups (snd st)) /\
     forall k v, fst st !! k = Some v ->
       v = AddRange NewRanges
             (mkRange (startInclusive (currentUnixTimestamp f) (blockSize f))
                      (endExclusive (currentUnixTimestamp f) (blockSize f)))) /\
  (forall c, planner (withShardsCount c f) = planner f) /\
  (shards f = str "5,5,7" ->
     planner f =
       ret ({[5 := AddRange NewRanges
                     (mkRange (startInclusive (currentUnixTimestamp f) (blockSize f))
                              (endExclusive (currentUnixTimestamp f) (blockSize f)));
              7 := AddRange NewRanges
                     (mkRange (startInclusive (currentUnixTimestamp f) (blockSize f))
                              (endExclusive (currentUnixTimestamp f) (blockSize f)))]},
            [5; 5; 7]) /\
     exists m : gmap Z Ranges, planner f = ret (m, [5; 5; 7]) /\ size m = 2%nat).
Proof.
  intros Hne.
  destruct (shard_list_entries_plan f Hne) as (Hst & Hcount & H557).
  split; [|split; [exact Hcount|]].
  - intros tr st H. destruct (Hst tr st H) as (Hacc & Hdom & Hsize & Hval).
    split; [exact Hacc|]. split; [exact Hdom|]. split; [exact Hsize | exact Hval].
  - intros E. destruct (H557 E) as [Hp Hsize]. split; [exact Hp|].
    eexists. split; [exact Hp | exact Hsize].
Qed.

(** C5 (amended): for every positive shards-count N with no explicit shard
    list supplied, the map has exactly N mod 2^32 entries, one per shard
    identifier from 0 up to N mod 2^32, each mapped to the same collection
    made of the single range whose start is [startInclusive] and whose end is
    [endExclusive]; these are exactly N entries, one per identifier from 0 up
    to N, when N is below 2^32. *)
Theorem C5_shard_count f :
  TrimSpace (shards f) = [] -> 0 < shardsCount f ->
  let n := shardsCount f mod 2 ^ 32 in
  (exists m, planner f = ret (m, seqZ 0 n) /\
     Z.of_nat (size m) = n /\
     forall k, m !! k =
       if decide (0 <= k < n)
       then Some (AddRange NewRanges
                    (mkRange (startInclusive (currentUnixTimestamp f) (blockSize f))
                             (endExclusive (currentUnixTimestamp f) (blockSize f))))
       else None) /\
  (shardsCount f < 2 ^ 32 -> n = shardsCount f).
Proof.
  intros He Hc. exact (shard_count_plan f He Hc).
Qed.

(** ** The claims about the process *)

(** [main] when a required flag is empty, when the planner ends the process,
    and when it goes on. *)
Lemma main_usage f :
  is_empty (pathPrefix f) || is_empty (namespaceStr f) = true ->
  main f = ([Usage], Exit 1).
Proof. intros H. unfold main. by rewrite H. Qed.

Lemma main_planner_exit f tr c :
  is_empty (pathPrefix f) || is_empty (namespaceStr f) = false ->
  planner f = (tr, Exit c) ->
  main f = (tr, Exit c).
Proof. intros H E. unfold main. by rewrite H, E. Qed.

Lemma main_invoke f st :
  is_empty (pathPrefix f) || is_empty (namespaceStr f) = false ->
  planner f = ret st ->
  main f = invoke f st.
Proof.
  intros H E. unfold main. rewrite H, E. simpl.
  by destruct (invoke f st).
Qed.

(** The runs of [invoke], by the answers of the pipeline. *)
Lemma invoke_run f st :
  let retentionOpts :=
    mkRetentionOptions (blockSize f) (bootstrapRetention f) (1 * Minute) (1 * Minute) in
  let opts := mkOptions (pathPrefix f) (flushSize f) (blockSize f) in
  let runOpts := mkRunOptions false in
  let start :=
    [LogConfigured (pathPrefix f) (namespaceStr f) (snd st);
     LogInfo (str "bootstrapping"); CallNewCommitLogBootstrapper opts] in
  invoke f st =
  match NewCommitLogBootstrapper opts with
  | inr err => (start ++ [LogFatal (FatalError err)], Exit 1)
  | inl source =>
      match NewMetadata (namespaceStr f) retentionOpts with
      | inr err =>
          (start ++ [CallNewMetadata (namespaceStr f) retentionOpts;
                     LogFatal (FatalError err)], Exit 1)
      | inl md =>
          match Bootstrap source md (fst st) runOpts with
          | inr err =>
              (start ++ [CallNewMetadata (namespaceStr f) retentionOpts;
                         CallBootstrap md (fst st) runOpts;
                         LogFatal (FailedToBootstrap err)], Exit 1)
          | inl res =>
              (start ++ [CallNewMetadata (namespaceStr f) retentionOpts;
                         CallBootstrap md (fst st) runOpts;
                         LogBootstrapped (ShardResultsLen res) (UnfulfilledLen res)],
               Continue tt)
          end
      end
  end.
Proof.
  cbv zeta. unfold invoke.
  destruct (NewCommitLogBootstrapper _) as [source|err]; [|reflexivity].
  destruct (NewMetadata _ _) as [md|err]; [|reflexivity].
  destruct (Bootstrap _ _ _ _) as [res|err]; reflexivity.
Qed.

(** C6: when the shards flag is empty (or blank) and shards-count is not
    positive, the tool prints usage, exits with status 1, and calls nothing
    of the bootstrap pipeline. *)
Theorem C6_no_shard_selection f :
  TrimSpace (shards f) = [] -> shardsCount f <= 0 ->
  Usage ∈ trace (main f) /\
  snd (main f) = Exit 1 /\ exit_status (main f) = 1 /\
  Forall (fun e => is_pipeline_call e = false) (trace (main f)).
Proof.
  intros He Hc.
  destruct (is_empty (pathPrefix f) || is_empty (namespaceStr f)) eqn:G.
  - rewrite (main_usage f G). simpl.
    split; [by left|]. repeat split. repeat constructor.
  - rewrite (main_planner_exit f _ _ G (planner_usage f He Hc)). simpl.
    split; [by right; left|]. repeat split. repeat constructor.
Qed.

(** C7: on the shard list "1, 2, abc" the planner ends at the token "abc"
    with the fatal parse error, the tool exits with status 1, and no map
    comes out of the planner: nothing of the pipeline is called. *)
Theorem C7_parse_error f :
  shards f = str "1, 2, abc" ->
  planner f = Fatalf (CouldNotParseShard (str "abc") ErrSyntax) /\
  snd (main f) = Exit 1 /\ exit_status (main f) = 1 /\
  Forall (fun e => is_pipeline_call e = false) (trace (main f)).
Proof.
  intros E.
  assert (Hp : planner f = Fatalf (CouldNotParseShard (str "abc") ErrSyntax)).
  { rewrite planner_list by (rewrite E; eval_closed).
    rewrite E.
    replace (Split (str "1, 2, abc") ",") with [str "1"; str " 2"; str " abc"]
      by eval_closed.
    rewrite (shardListLoop_accept _ _ _ _ _ 1) by eval_closed.
    rewrite (shardListLoop_accept _ _ _ _ _ 2) by eval_closed.
    rewrite (shardListLoop_parse_error _ _ _ _ _ ErrSyntax) by eval_closed.
    do 2 f_equal. }
  split; [exact Hp|].
  destruct (is_empty (pathPrefix f) || is_empty (namespaceStr f)) eqn:G.
  - rewrite (main_usage f G). simpl. repeat split. repeat constructor.
  - rewrite (main_planner_exit f _ _ G Hp). simpl. repeat split. repeat constructor.
Qed.

(** C8 (amended): for every positive block size below 2^62 nanoseconds and
    every Unix timestamp between -2^62 and 2^62 seconds, every range the
    planner stores in the map starts before it ends. *)
Theorem C8_ranges_ordered f tr st :
  window_fits (currentUnixTimestamp f) (blockSize f) ->
  planner f = (tr, Continue st) ->
  Before (RangeStart (rng f)) (RangeEnd (rng f)) = true /\
  forall k v, fst st !! k = Some v -> v = AddRange NewRanges (rng f).
Proof.
  intros Hfit H. split.
  - pose proof Hfit as [Hbs _].
    destruct (window_spec _ _ Hfit) as (_ & _ & _ & Hw1 & Ha1 & Hw2 & Ha2).
    unfold rng; simpl. apply Before_abs_ns; [assumption..|]. cbv zeta in *. lia.
  - destruct (planner_continue f tr st H) as [_ [ids ->]].
    intros k v. apply addShards_values.
Qed.

Lemma attempts_no_pipeline_call {A} (m : M A) :
  Forall (fun e => is_pipeline_call e = false) (trace m) ->
  bootstrap_attempts m = 0%nat.
Proof.
  unfold bootstrap_attempts. induction 1 as [|e tr He _ IH]; [reflexivity|].
  rewrite filter_cons_False; [exact IH|].
  destruct e; simpl in *; congruence.
Qed.

(** The runs of [main] that do not reach the pipeline. *)
Lemma main_cases f :
  (exists st, main f = invoke f st /\ planner f = ret st /\
     is_empty (pathPrefix f) || is_empty (namespaceStr f) = false) \/
  (snd (main f) = Exit 1 /\
   Forall (fun e => is_pipeline_call e = false) (trace (main f))).
Proof.
  destruct (is_empty (pathPrefix f) || is_empty (namespaceStr f)) eqn:G.
  - right. rewrite (main_usage f G). simpl. split; [reflexivity|]. repeat constructor.
  - destruct (planner_cases f) as [[ids E]|[[msg E]|E]].
    + left. eexists. split; [by apply main_invoke|]. by split.
    + right. rewrite (main_planner_exit f _ _ G E). simpl.
      split; [reflexivity|]. repeat constructor.
    + right. rewrite (main_planner_exit f _ _ G E). simpl.
      split; [reflexivity|]. repeat constructor.
Qed.

(** C9: a run makes at most one bootstrap attempt, and every attempt is
    made with incremental save disabled; once the flags are accepted and the
    planner has produced its map, a failure to construct the commit-log stage
    (or the namespace metadata) ends the process with status 1 on the fatal
    log of that error and without any attempt, and otherwise exactly one
    attempt is made, whose failure ends the process with status 1 on the
    fatal log of its error; no error is followed by another call. *)
Theorem C9_single_attempt f :
  (bootstrap_attempts (main f) <= 1)%nat /\
  Forall (fun e => forall md m ro, e = CallBootstrap md m ro -> Incremental ro = false)
    (trace (main f)) /\
  (forall st,
     is_empty (pathPrefix f) || is_empty (namespaceStr f) = false ->
     planner f = ret st ->
     let retentionOpts :=
       mkRetentionOptions (blockSize f) (bootstrapRetention f) (1 * Minute) (1 * Minute) in
     let opts := mkOptions (pathPrefix f) (flushSize f) (blockSize f) in
     let runOpts := mkRunOptions false in
     match NewCommitLogBootstrapper opts with
     | inr err =>
         snd (main f) = Exit 1 /\ bootstrap_attempts (main f) = 0%nat /\
         last (trace (main f)) = Some (LogFatal (FatalError err))
     | inl source =>
         match NewMetadata (namespaceStr f) retentionOpts with
         | inr err =>
             snd (main f) = Exit 1 /\ bootstrap_attempts (main f) = 0%nat /\
             last (trace (main f)) = Some (LogFatal (FatalError err))
         | inl md =>
             bootstrap_attempts (main f) = 1%nat /\
             CallBootstrap md (fst st) runOpts ∈ trace (main f) /\
             match Bootstrap source md (fst st) runOpts with
             | inr err =>
                 snd (main f) = Exit 1 /\
                 last (trace (main f)) = Some (LogFatal (FailedToBootstrap err))
             | inl res =>
                 snd (main f) = Continue tt /\ exit_status (main f) = 0 /\
                 last (trace (main f)) =
                   Some (LogBootstrapped (ShardResultsLen res) (UnfulfilledLen res))
             end
         end
     end).
Proof.
  split; [|split].
  - destruct (main_cases f) as [(st & -> & _ & _)|[_ Hno]].
    + rewrite invoke_run.
      destruct (NewCommitLogBootstrapper _) as [source|err]; [|by compute; lia].
      destruct (NewMetadata _ _) as [md|err]; [|by compute; lia].
      destruct (Bootstrap _ _ _ _) as [res|err]; by compute; lia.
    + rewrite (attempts_no_pipeline_call _ Hno). lia.
  - destruct (main_cases f) as [(st & -> & _ & _)|[_ Hno]].
    + rewrite invoke_run.
      destruct (NewCommitLogBootstrapper _) as [source|err];
        [destruct (NewMetadata _ _) as [md|err];
         [destruct (Bootstrap _ _ _ _) as [res|err]|]|];
        simpl; repeat constructor; intros ? ? ? [=]; by subst.
    + eapply Forall_impl; [exact Hno|]. intros e He md m ro ->. discriminate.
  - intros st G E. cbv zeta. rewrite (main_invoke f st G E), invoke_run.
    destruct (NewCommitLogBootstrapper _) as [source|err]; [|by compute].
    destruct (NewMetadata _ _) as [md|err]; [|by compute].
    split; [|split].
    + destruct (Bootstrap _ _ _ _) as [res|err]; by compute.
    + destruct (Bootstrap _ _ _ _) as [res|err]; simpl;
        do 4 right; left.
    + destruct (Bootstrap _ _ _ _) as [res|err]; by compute.
Qed.

(** C10: every shard identifier the planner produces is the source integer
    reduced modulo 2^32.  In list mode a token read as [v] becomes the
    identifier [v mod 2^32], which is both the map key and the logged
    identifier; the token "-1" is accepted and becomes shard 4294967295.  In
    count mode the loop bound is shards-count modulo 2^32; with shards-count
    2^32 the map is empty and the bootstrap is still called, on the empty
    map. *)
Theorem C10_shard_ids_mod_2_32 f :
  (forall tr st,
     TrimSpace (shards f) <> [] -> planner f = (tr, Continue st) ->
     Forall2
       (fun tok id => exists v, Atoi (TrimSpace tok) = inl v /\ id = v mod 2 ^ 32)
       (Split (shards f) ",") (snd st) /\
     dom (fst st) = list_to_set (snd st)) /\
  (shards f = str "-1" ->
     Atoi (str "-1") = inl (-1) /\
     planner f = ret ({[4294967295 := singleRange f]}, [4294967295])) /\
  (TrimSpace (shards f) = [] -> 0 < shardsCount f ->
     let bound := shardsCount f mod 2 ^ 32 in
     planner f = ret (shardCountLoop (Z.to_nat bound) (rng f) 0 bound (∅, [])) /\
     exists m, planner f = ret (m, seqZ 0 bound) /\
       dom m = list_to_set (seqZ 0 bound)) /\
  (TrimSpace (shards f) = [] -> shardsCount f = 2 ^ 32 ->
     planner f = ret (∅, []) /\
     (is_empty (pathPrefix f) || is_empty (namespaceStr f) = false ->
      forall source md,
        NewCommitLogBootstrapper
          (mkOptions (pathPrefix f) (flushSize f) (blockSize f)) = inl source ->
        NewMetadata (namespaceStr f)
          (mkRetentionOptions (blockSize f) (bootstrapRetention f)
             (1 * Minute) (1 * Minute)) = inl md ->
        CallBootstrap md ∅ (mkRunOptions false) ∈ trace (main f) /\
        bootstrap_attempts (main f) = 1%nat)).
Proof.
  split; [|split; [|split]].
  - intros tr st Hne H.
    destruct (planner_list_continue f tr st Hne H) as [Hacc Hst]. split.
    + eapply Forall2_impl; [exact Hacc|].
      intros tok id [_ (v & Hv & ->)]. by exists v.
    + remember (snd st) as ids eqn:Eids. clear Eids Hacc H. subst st.
      rewrite addShards_dom. simpl. rewrite dom_empty_L. apply (right_id_L ∅ (∪)).
  - intros E. split; [eval_closed|].
    rewrite planner_list by (rewrite E; eval_closed).
    rewrite E.
    replace (Split (str "-1") ",") with [str "-1"] by eval_closed.
    rewrite (shardListLoop_accept _ _ _ _ _ (-1)) by eval_closed.
    reflexivity.
  - intros He Hc bound. split.
    + unfold planner. apply is_empty_true in He. rewrite He. simpl.
      destruct (Z.gtb_spec (shardsCount f) 0) as [_|?]; [|lia].
      reflexivity.
    + rewrite (planner_count f He Hc). fold (uint32 (shardsCount f)).
      exists (fst (addShards (rng f) (seqZ 0 bound) (∅, []))). split.
      * f_equal. rewrite (surjective_pairing (addShards _ _ _)) at 1.
        by rewrite addShards_snd.
      * rewrite addShards_dom. simpl. rewrite dom_empty_L. apply (right_id_L ∅ (∪)).
  - intros He Hc.
    assert (Hp : planner f = ret (∅, [])).
    { rewrite (planner_count f He) by (rewrite Hc; reflexivity).
      rewrite Hc. reflexivity. }
    split; [exact Hp|].
    intros G source md Hs Hm.
    rewrite (main_invoke f _ G Hp), invoke_run. simpl fst. rewrite Hs, Hm.
    destruct (Bootstrap _ _ _ _) as [res|err]; (split; [do 4 right; left | by compute]).
Qed.

(** ** Further properties of the window (main.go, lines 79-83) *)

(** X1: on the flags that fit, the window reaches at least one block size
    before the reference time and more than one block size after it, and
    never two block sizes or more before it nor more than two after it. *)
Theorem window_covers_now ts bs :
  window_fits ts bs ->
  abs_ns (now ts) - 2 * bs < abs_ns (startInclusive ts bs) <= abs_ns (now ts) - bs /\
  abs_ns (now ts) + bs < abs_ns (endExclusive ts bs) <= abs_ns (now ts) + 2 * bs.
Proof.
  intros H. pose proof H as [Hbs _].
  destruct (window_spec ts bs H) as (_ & _ & _ & _ & Ha1 & _ & Ha2).
  cbv zeta in *. rewrite Ha1, Ha2. unfold truncated_down.
  rewrite Z.abs_eq by lia.
  pose proof (Z.mod_pos_bound (abs_ns (now ts)) bs ltac:(lia)). lia.
Qed.

(** X2: on the flags that fit, both ends of the window are whole multiples
    of the block size counted from the zero time; when the block size divides
    a day they are whole multiples of it counted from the Unix epoch too. *)
Theorem window_aligned ts bs :
  window_fits ts bs ->
  (bs | abs_ns (startInclusive ts bs)) /\ (bs | abs_ns (endExclusive ts bs)) /\
  ((bs | 24 * Hour) ->
   (bs | abs_ns (startInclusive ts bs) - unixToInternal * Second) /\
   (bs | abs_ns (endExclusive ts bs) - unixToInternal * Second)).
Proof.
  intros H. pose proof H as [Hbs _].
  destruct (window_spec ts bs H) as (_ & _ & _ & _ & Ha1 & _ & Ha2).
  cbv zeta in *.
  destruct (truncated_down_greatest (abs_ns (now ts)) bs ltac:(lia)) as [Hdiv _].
  assert (H1 : (bs | abs_ns (startInclusive ts bs))).
  { rewrite Ha1. apply Z.divide_sub_r; [exact Hdiv | apply Z.divide_refl]. }
  assert (H2 : (bs | abs_ns (endExclusive ts bs))).
  { rewrite Ha2. apply Z.divide_add_r; [exact Hdiv|].
    apply Z.divide_mul_r. apply Z.divide_refl. }
  split; [exact H1|]. split; [exact H2|].
  intros Hday.
  assert (Hu : (bs | unixToInternal * Second)).
  { apply (Z.divide_trans _ (24 * Hour)); [exact Hday|]. by exists 719162. }
  split; apply Z.divide_sub_r; assumption.
Qed.

(** X3: on the flags that fit, the window does not move back when the
    reference time moves on, and two reference times in the same block give
    the same window. *)
Theorem window_by_block ts ts' bs :
  window_fits ts bs -> window_fits ts' bs ->
  (ts <= ts' ->
   abs_ns (startInclusive ts bs) <= abs_ns (startInclusive ts' bs) /\
   abs_ns (endExclusive ts bs) <= abs_ns (endExclusive ts' bs)) /\
  (abs_ns (now ts) / bs = abs_ns (now ts') / bs ->
   startInclusive ts bs = startInclusive ts' bs /\
   endExclusive ts bs = endExclusive ts' bs).
Proof.
  intros H H'. pose proof H as [Hbs _].
  destruct (window_spec ts bs H) as (Hn & _ & _ & Hw1 & Ha1 & Hw2 & Ha2).
  destruct (window_spec ts' bs H') as (Hn' & _ & _ & Hw1' & Ha1' & Hw2' & Ha2').
  cbv zeta in *.
  assert (Htd : forall x, truncated_down x bs = bs * (x / bs)).
  { intros x. unfold truncated_down. rewrite Z.abs_eq by lia.
    pose proof (Z.div_mod x bs ltac:(lia)). lia. }
  rewrite Htd in Ha1, Ha2, Ha1', Ha2'.
  split.
  - intros Hle.
    assert (abs_ns (now ts) / bs <= abs_ns (now ts') / bs).
    { apply Z.div_le_mono; [lia|]. rewrite Hn, Hn'.
      assert (0 < Second) by reflexivity. nia. }
    rewrite Ha1, Ha2, Ha1', Ha2'. nia.
  - intros E. split; apply abs_ns_inj; try assumption.
    + rewrite Ha1, Ha1', E. reflexivity.
    + rewrite Ha2, Ha2', E. reflexivity.
Qed.

(** X4: on the flags that fit, with a block size below 2^61 nanoseconds, the
    end of the window is the start of the window plus three block sizes, as
    times. *)
Theorem window_end_from_start ts bs :
  window_fits ts bs -> bs < 2 ^ 61 ->
  Add (startInclusive ts bs) (int64 (bs * 3)) = endExclusive ts bs.
Proof.
  intros H Hlt. pose proof H as [Hbs Hts].
  destruct (window_spec ts bs H) as (Hn & _ & _ & Hw1 & Ha1 & Hw2 & Ha2).
  cbv zeta in *.
  assert (HS : Second = 1000000000) by reflexivity.
  assert (HU : unixToInternal = 62135596800) by reflexivity.
  change (2 ^ 61) with 2305843009213693952 in Hlt.
  rewrite (int64_id (bs * 3)) by (unfold_ints; lia).
  destruct (Add_spec (startInclusive ts bs) (bs * 3) Hw1) as [Hw Ha].
  - apply div_Second_in_int64. rewrite Ha1.
    unfold truncated_down. rewrite Z.abs_eq by lia.
    pose proof (Z.mod_pos_bound (abs_ns (now ts)) bs ltac:(lia)) as Hm.
    rewrite Hn in Hm |- *. unfold_ints. lia.
  - apply abs_ns_inj; [assumption..|]. rewrite Ha, Ha1, Ha2. lia.
Qed.

(** X5: with a block size of zero the window is empty at every reference
    time: both ends are the reference time itself. *)
Theorem window_zero_block ts :
  startInclusive ts 0 = now ts /\ endExclusive ts 0 = now ts /\
  Equal (startInclusive ts 0) (endExclusive ts 0) = true.
Proof.
  assert (E : Add (now ts) 0 = now ts).
  { unfold now, Unix, Add. simpl.
    rewrite Z.add_0_r.
    rewrite (int64_id (int64 _)) by apply int64_range. reflexivity. }
  unfold startInclusive, endExclusive. rewrite Truncate_nonpos by lia.
  change (int64 (- 0)) with 0. change (int64 (0 * 2)) with 0.
  rewrite E. repeat split.
  unfold Equal. by rewrite !Z.eqb_refl.
Qed.

(** X6: with a negative block size above -2^62 nanoseconds the reference
    time is not truncated: the start is the reference time plus the size of
    the block, the end is the reference time minus twice that size, and the
    end is before the start. *)
Theorem window_negative_block ts bs :
  - 2 ^ 62 < bs < 0 -> - 2 ^ 62 <= ts <= 2 ^ 62 ->
  abs_ns (startInclusive ts bs) = abs_ns (now ts) - bs /\
  abs_ns (endExclusive ts bs) = abs_ns (now ts) + 2 * bs /\
  Before (endExclusive ts bs) (startInclusive ts bs) = true.
Proof.
  intros Hbs Hts.
  assert (HS : Second = 1000000000) by reflexivity.
  assert (HU : unixToInternal = 62135596800) by reflexivity.
  assert (Hnow : now ts = mkTime (ts + unixToInternal) 0).
  { apply now_spec. unfold_ints. lia. }
  assert (Hwf : wf (now ts)).
  { rewrite Hnow. unfold wf; simpl. unfold_ints. lia. }
  assert (Habs : abs_ns (now ts) = (ts + unixToInternal) * Second).
  { rewrite Hnow. unfold abs_ns; simpl. lia. }
  unfold startInclusive, endExclusive. rewrite Truncate_nonpos by lia.
  rewrite (int64_id (- bs)) by (unfold_ints; lia).
  rewrite (int64_id (bs * 2)) by (unfold_ints; lia).
  destruct (Add_spec (now ts) (- bs) Hwf) as [Hw1 Ha1].
  { apply div_Second_in_int64. rewrite Habs. unfold_ints. lia. }
  destruct (Add_spec (now ts) (bs * 2) Hwf) as [Hw2 Ha2].
  { apply div_Second_in_int64. rewrite Habs. unfold_ints. lia. }
  split; [lia|]. split; [lia|].
  apply Before_abs_ns; [assumption..|lia].
Qed.

(** ** Further properties of the shard list's tokens (main.go, lines 89-95) *)

Lemma Split_nonempty s sep : Split s sep <> [].
Proof.
  destruct s as [|c s]; simpl; [discriminate|].
  destruct (Ascii.eqb c sep); [discriminate|].
  destruct (Split s sep); discriminate.
Qed.

Lemma Split_cons_sep s sep : Split (sep :: s) sep = [] :: Split s sep.
Proof. simpl. by rewrite Ascii.eqb_refl. Qed.

Lemma Split_cons_other c s sep :
  c <> sep ->
  exists tok toks, Split s sep = tok :: toks /\ Split (c :: s) sep = (c :: tok) :: toks.
Proof.
  intros Hc. simpl. destruct (Ascii.eqb_spec c sep) as [?|_]; [contradiction|].
  destruct (Split s sep) as [|tok toks] eqn:E; [by apply Split_nonempty in E|].
  by exists tok, toks.
Qed.

Lemma Split_snoc_sep s sep : Split (s ++ [sep]) sep = Split s sep ++ [[]].
Proof.
  induction s as [|c s IH]; simpl.
  - by rewrite Ascii.eqb_refl.
  - destruct (Ascii.eqb c sep); rewrite IH; [reflexivity|].
    destruct (Split s sep) as [|tok toks] eqn:E; [by apply Split_nonempty in E|].
    reflexivity.
Qed.

(** X7: the tokens of [Split] rejoin to the string that was split; there is
    one token more than there are separators, so there is always a token;
    no token holds a separator; and splitting the join of such tokens gives
    them back. *)
Theorem Split_Join s sep :
  Join (Split s sep) sep = s /\
  length (Split s sep) = S (count_occ ascii_dec s sep) /\
  Forall (fun tok => ~ In sep tok) (Split s sep) /\
  (forall toks, toks <> [] -> Forall (fun tok => ~ In sep tok) toks ->
     Split (Join toks sep) sep = toks).
Proof.
  split; [|split; [|split]].
  - induction s as [|c s IH]; [reflexivity|].
    destruct (Ascii.eqb_spec c sep) as [->|Hc].
    + rewrite Split_cons_sep. simpl.
      destruct (Split s sep) as [|tok toks] eqn:E; [by apply Split_nonempty in E|].
      by rewrite <- IH.
    + destruct (Split_cons_other c s sep Hc) as (tok & toks & E & ->).
      rewrite E in IH. simpl in *. destruct toks; simpl; by rewrite <- IH.
  - induction s as [|c s IH]; [reflexivity|].
    destruct (Ascii.eqb_spec c sep) as [->|Hc].
    + rewrite Split_cons_sep. simpl. rewrite IH.
      destruct (ascii_dec sep sep); [reflexivity|contradiction].
    + destruct (Split_cons_other c s sep Hc) as (tok & toks & E & ->).
      rewrite E in IH. simpl in *. rewrite IH.
      destruct (ascii_dec c sep); [contradiction|reflexivity].
  - induction s as [|c s IH]; [simpl; constructor; [by intros []|constructor]|].
    destruct (Ascii.eqb_spec c sep) as [->|Hc].
    + rewrite Split_cons_sep. constructor; [by intros []|exact IH].
    + destruct (Split_cons_other c s sep Hc) as (tok & toks & E & ->).
      rewrite E in IH. apply Forall_cons in IH as [Ht Hts].
      constructor; [|exact Hts]. intros [?|?]; [congruence|contradiction].
  - intros toks Hne Hall. induction Hall as [|tok toks Ht Hts IH]; [contradiction|].
    clear Hne. destruct toks as [|tok' toks].
    + simpl. clear IH Hts. induction tok as [|c tok IHt]; [reflexivity|].
      destruct (Split_cons_other c tok sep) as (t & ts & E & ->).
      { intros ->. apply Ht. by left. }
      rewrite IHt in E by (intros ?; apply Ht; by right).
      by injection E as <- <-.
    + specialize (IH ltac:(discriminate)).
      change (Join (tok :: tok' :: toks) sep)
        with (tok ++ sep :: Join (tok' :: toks) sep).
      induction tok as [|c tok IHt].
      * rewrite app_nil_l, Split_cons_sep. by rewrite IH.
      * rewrite <- app_comm_cons.
        destruct (Split_cons_other c (tok ++ sep :: Join (tok' :: toks) sep) sep)
          as (t & ts & E & ->).
        { intros ->. apply Ht. by left. }
        rewrite IHt in E by (intros ?; apply Ht; by right).
        by injection E as <- <-.
Qed.

Lemma strip_prefix_split p s r :
  strip_prefix p s = Some r -> exists q, s = q ++ r /\ map byte_val q = p.
Proof.
  revert s. induction p as [|b p IH]; intros s H; simpl in *.
  - injection H as ->. by exists [].
  - destruct s as [|c s]; [discriminate|].
    destruct (Z.eqb_spec (byte_val c) b) as [<-|]; [|discriminate].
    destruct (IH s H) as (q & -> & <-). by exists (c :: q).
Qed.

Lemma strip_prefix_app p s r x :
  strip_prefix p s = Some r -> strip_prefix p (s ++ x) = Some (r ++ x).
Proof.
  revert s. induction p as [|b p IH]; intros s H; simpl in *.
  - by injection H as ->.
  - destruct s as [|c s]; [discriminate|]. simpl.
    destruct (byte_val c =? b); [by apply IH|discriminate].
Qed.

Lemma strip_space_split encs s r :
  strip_space encs s = Some r -> exists q, s = q ++ r /\ map byte_val q ∈ encs.
Proof.
  induction encs as [|p encs IH]; simpl; [discriminate|].
  destruct (strip_prefix p s) as [r'|] eqn:E.
  - intros [= ->]. destruct (strip_prefix_split _ _ _ E) as (q & -> & <-).
    exists q. split; [reflexivity | by left].
  - intros H. destruct (IH H) as (q & -> & Hq). exists q. split; [reflexivity | by right].
Qed.

Lemma strip_space_app_None encs s x :
  strip_space encs (s ++ x) = None -> strip_space encs s = None.
Proof.
  induction encs as [|p encs IH]; simpl; [reflexivity|].
  destruct (strip_prefix p s) as [r|] eqn:E.
  - by rewrite (strip_prefix_app _ _ _ x E).
  - destruct (strip_prefix p (s ++ x)); [discriminate | exact IH].
Qed.

Lemma trim_front_split fuel encs s :
  exists pre, s = pre ++ trim_front fuel encs s /\ space_run encs pre.
Proof.
  revert s. induction fuel as [|fuel IH]; intros s; simpl.
  - exists []. split; [reflexivity|]. exists []. by split.
  - destruct (strip_space encs s) as [r|] eqn:E.
    + destruct (strip_space_split _ _ _ E) as (q & -> & Hq).
      destruct (IH r) as (pre & Hr & (runes & -> & Hrunes)).
      exists (q ++ concat runes). split; [by rewrite <- app_assoc, <- Hr|].
      exists (q :: runes). split; [reflexivity | by constructor].
    + exists []. split; [reflexivity|]. exists []. by split.
Qed.

Lemma trim_front_id fuel encs s :
  strip_space encs s = None -> trim_front fuel encs s = s.
Proof. intros H. destruct fuel; simpl; [reflexivity | by rewrite H]. Qed.

Lemma space_run_rev encs s :
  space_run (map (@rev Z) encs) s -> space_run encs (rev s).
Proof.
  intros (runes & -> & Hrunes).
  exists (rev (map (@rev ascii) runes)). split.
  - clear Hrunes. induction runes as [|r runes IH]; [reflexivity|].
    simpl. rewrite rev_app_distr, IH, concat_app. simpl. by rewrite app_nil_r.
  - apply Forall_rev, Forall_map. eapply Forall_impl; [exact Hrunes|].
    intros r Hr. simpl. rewrite map_rev.
    apply list_elem_of_fmap in Hr as (p & Hp & Hin).
    rewrite Hp, rev_involutive. exact Hin.
Qed.

(** X8: [TrimSpace] takes a run of whitespace runes off each end and leaves
    the rest in place; what it returns neither starts nor ends with a
    whitespace rune; trimming again changes nothing. *)
Theorem TrimSpace_spec s :
  (exists pre post,
     s = pre ++ TrimSpace s ++ post /\
     space_run spaceEncodings pre /\ space_run spaceEncodings post) /\
  strip_space spaceEncodings (TrimSpace s) = None /\
  strip_space (map (@rev Z) spaceEncodings) (rev (TrimSpace s)) = None /\
  TrimSpace (TrimSpace s) = TrimSpace s.
Proof.
  assert (Hparts : exists pre post,
            s = pre ++ TrimSpace s ++ post /\ TrimLeftSpace s = TrimSpace s ++ post /\
            space_run spaceEncodings pre /\ space_run spaceEncodings post).
  { unfold TrimSpace, TrimRightSpace, TrimLeftSpace.
    destruct (trim_front_split (length s) spaceEncodings s) as (pre & Hs & Hpre).
    set (u := trim_front (length s) spaceEncodings s) in *.
    destruct (trim_front_split (length u) (map (@rev Z) spaceEncodings) (rev u))
      as (post & Hu & Hpost).
    set (t := trim_front (length u) (map (@rev Z) spaceEncodings) (rev u)) in *.
    assert (Hu' : u = rev t ++ rev post).
    { by rewrite <- rev_app_distr, <- Hu, rev_involutive. }
    exists pre, (rev post). split; [by rewrite <- Hu'|]. split; [exact Hu'|].
    split; [exact Hpre | by apply space_run_rev]. }
  destruct Hparts as (pre & post & Hs & Hleft & Hpre & Hpost).
  assert (Hlead : strip_space spaceEncodings (TrimSpace s) = None).
  { apply (strip_space_app_None _ _ post). rewrite <- Hleft. apply TrimLeftSpace_done. }
  assert (Htrail : strip_space (map (@rev Z) spaceEncodings) (rev (TrimSpace s)) = None).
  { apply TrimRightSpace_done. }
  split; [by exists pre, post|]. split; [exact Hlead|]. split; [exact Htrail|].
  unfold TrimSpace at 1. unfold TrimLeftSpace. rewrite (trim_front_id _ _ _ Hlead).
  unfold TrimRightSpace. rewrite (trim_front_id _ _ _ Htrail).
  apply rev_involutive.
Qed.

Lemma is_ascii_space_byte c :
  is_ascii_space c = true ->
  byte_val c = 9 \/ byte_val c = 10 \/ byte_val c = 11 \/ byte_val c = 12 \/
  byte_val c = 13 \/ byte_val c = 32.
Proof using Type.
  unfold is_ascii_space. cbv zeta.
  rewrite !orb_true_iff, !Z.eqb_eq. lia.
Qed.

Lemma is_ascii_ink_byte c :
  is_ascii_ink c = true ->
  byte_val c < 128 /\ byte_val c <> 9 /\ byte_val c <> 10 /\ byte_val c <> 11 /\
  byte_val c <> 12 /\ byte_val c <> 13 /\ byte_val c <> 32.
Proof using Type.
  unfold is_ascii_ink, is_ascii_space. cbv zeta.
  rewrite andb_true_iff, negb_true_iff, !orb_false_iff, Z.ltb_lt, !Z.eqb_neq. lia.
Qed.

Lemma ascii_apart_spaceEncodings : ascii_apart spaceEncodings.
Proof using Type.
  split; vm_compute.
  - repeat (constructor; [first [left; split; [reflexivity|lia] | right; discriminate]|]).
    constructor.
  - repeat (constructor; [in_list|]). constructor.
Qed.

Lemma ascii_apart_rev_spaceEncodings : ascii_apart (map (@rev Z) spaceEncodings).
Proof using Type.
  split; vm_compute.
  - repeat (constructor; [first [left; split; [reflexivity|lia] | right; discriminate]|]).
    constructor.
  - repeat (constructor; [in_list|]). constructor.
Qed.

Lemma strip_space_ascii_space encs c u :
  ascii_apart encs -> is_ascii_space c = true ->
  strip_space encs (c :: u) = Some u.
Proof using Type.
  intros [Hshape Hsix] Hc. apply is_ascii_space_byte in Hc.
  assert (Hin : In [byte_val c] encs).
  { rewrite !Forall_cons in Hsix. destruct Hsix as (?&?&?&?&?&?&_).
    destruct Hc as [->|[->|[->|[->|[->| ->]]]]]; assumption. }
  clear Hsix. induction Hshape as [|p encs Hp _ IH]; [destruct Hin|].
  simpl. destruct p as [|b rest]; [destruct Hp|]. simpl.
  destruct (Z.eqb_spec (byte_val c) b) as [Hb|Hb].
  - destruct Hp as [[-> _]|Hbig]; [reflexivity | lia].
  - apply IH. destruct Hin as [[=]|Hin]; [congruence | exact Hin].
Qed.

Lemma strip_space_ascii_ink encs c u :
  ascii_apart encs -> is_ascii_ink c = true ->
  strip_space encs (c :: u) = None.
Proof using Type.
  intros [Hshape _] Hc. apply is_ascii_ink_byte in Hc.
  induction Hshape as [|p encs Hp _ IH]; [reflexivity|].
  simpl. destruct p as [|b rest]; [destruct Hp|]. simpl.
  destruct (Z.eqb_spec (byte_val c) b) as [Hb|Hb]; [|exact IH].
  exfalso. destruct Hp as [[_ Hsix]|Hbig]; lia.
Qed.

Lemma strip_space_nil encs : ascii_apart encs -> strip_space encs [] = None.
Proof using Type.
  intros [Hshape _]. induction Hshape as [|p encs Hp _ IH]; [reflexivity|].
  simpl. destruct p; [destruct Hp | exact IH].
Qed.

Lemma trim_front_ascii fuel encs ws c u :
  ascii_apart encs -> Forall (fun w => is_ascii_space w = true) ws ->
  is_ascii_ink c = true -> (length (ws ++ c :: u) <= fuel)%nat ->
  trim_front fuel encs (ws ++ c :: u) = c :: u.
Proof using Type.
  intros Henc Hws Hc. revert fuel.
  induction Hws as [|w ws Hw _ IH]; intros fuel Hlen.
  - destruct fuel; [simpl in Hlen; lia|]. simpl.
    by rewrite (strip_space_ascii_ink _ _ _ Henc Hc).
  - destruct fuel; [simpl in Hlen; lia|]. simpl.
    rewrite (strip_space_ascii_space _ _ _ Henc Hw).
    apply IH. simpl in Hlen. lia.
Qed.

Lemma trim_front_ascii_blank fuel encs ws :
  ascii_apart encs -> Forall (fun w => is_ascii_space w = true) ws ->
  (length ws <= fuel)%nat -> trim_front fuel encs ws = [].
Proof using Type.
  intros Henc Hws. revert fuel.
  induction Hws as [|w ws Hw _ IH]; intros fuel Hlen.
  - destruct fuel; simpl; [reflexivity|]. by rewrite (strip_space_nil _ Henc).
  - destruct fuel; [simpl in Hlen; lia|]. simpl.
    rewrite (strip_space_ascii_space _ _ _ Henc Hw).
    apply IH. simpl in Hlen. lia.
Qed.

(** A string of ASCII whitespace is trimmed to nothing. *)
Lemma TrimSpace_ascii_blank ws :
  Forall (fun w => is_ascii_space w = true) ws -> TrimSpace ws = [].
Proof using Type.
  intros Hws. unfold TrimSpace, TrimLeftSpace.
  by rewrite (trim_front_ascii_blank _ _ _ ascii_apart_spaceEncodings Hws).
Qed.

(** ASCII whitespace around text that starts and ends with printable ASCII
    is all that the trimming takes off. *)
Lemma TrimSpace_ascii_padded ws c m c' ws' t :
  Forall (fun w => is_ascii_space w = true) ws ->
  Forall (fun w => is_ascii_space w = true) ws' ->
  t = c :: m -> rev t = c' :: rev (removelast t) ->
  is_ascii_ink c = true -> is_ascii_ink c' = true ->
  TrimSpace (ws ++ t ++ ws') = t.
Proof using Type.
  intros Hws Hws' Ht Hrev Hc Hc'.
  unfold TrimSpace.
  assert (Hleft : TrimLeftSpace (ws ++ t ++ ws') = t ++ ws').
  { unfold TrimLeftSpace. rewrite Ht, <- app_comm_cons.
    apply trim_front_ascii.
    - exact ascii_apart_spaceEncodings.
    - exact Hws.
    - exact Hc.
    - apply Nat.le_refl. }
  rewrite Hleft. unfold TrimRightSpace.
  rewrite rev_app_distr, Hrev.
  rewrite trim_front_ascii.
  - rewrite <- Hrev. apply rev_involutive.
  - exact ascii_apart_rev_spaceEncodings.
  - apply Forall_rev. exact Hws'.
  - exact Hc'.
  - rewrite <- Hrev, <- rev_app_distr, length_rev. apply Nat.le_refl.
Qed.

Lemma is_digit_ink c : is_digit c = true -> is_ascii_ink c = true.
Proof using Type.
  unfold is_digit, is_ascii_ink, is_ascii_space. cbv zeta.
  rewrite !andb_true_iff, !Z.leb_le, Z.ltb_lt, negb_true_iff, !orb_false_iff, !Z.eqb_neq.
  lia.
Qed.

Lemma rev_last_digit body :
  body <> [] -> forallb is_digit body = true ->
  exists c', rev body = c' :: rev (removelast body) /\ is_digit c' = true.
Proof using Type.
  intros Hne Hd.
  destruct (exists_last Hne) as (m & c' & ->).
  exists c'. rewrite rev_app_distr, removelast_last. split; [reflexivity|].
  rewrite forallb_app in Hd. apply andb_true_iff in Hd as [_ Hd].
  simpl in Hd. by apply andb_true_iff in Hd as [Hd _].
Qed.

(** X9: ASCII whitespace around a number of the list is ignored: when
    [Atoi] reads a text as [v], the token made of that text with spaces, tabs
    or line ends before and after it is trimmed back to the text and accepted
    as the shard [uint32 v]. *)
Theorem padded_token_accepted ws tok ws' v :
  Forall (fun w => is_ascii_space w = true) ws ->
  Forall (fun w => is_ascii_space w = true) ws' ->
  Atoi tok = inl v ->
  TrimSpace (ws ++ tok ++ ws') = tok /\ accepts (ws ++ tok ++ ws') (uint32 v).
Proof using Type.
  intros Hws Hws' Hv.
  assert (Htrim : TrimSpace (ws ++ tok ++ ws') = tok).
  { apply Atoi_spec in Hv as (neg & body & Hs & Hne & Hd & _ & _).
    destruct (rev_last_digit body Hne Hd) as (c' & Hrev & Hc').
    apply is_digit_ink in Hc'.
    destruct body as [|c body']; [contradiction|].
    set (body := c :: body') in *.
    assert (Hc : is_ascii_ink c = true).
    { apply is_digit_ink. simpl in Hd. by apply andb_true_iff in Hd as [Hd _]. }
    destruct Hs as [[-> _]|[[-> _]|[-> _]]].
    - by apply (TrimSpace_ascii_padded ws c body' c').
    - apply (TrimSpace_ascii_padded ws "+"%char body c'); try done.
      change (rev ("+"%char :: body)) with (rev body ++ ["+"%char]).
      rewrite Hrev. unfold body at 2. simpl removelast. fold body.
      simpl rev at 2. by rewrite <- app_comm_cons.
    - apply (TrimSpace_ascii_padded ws "-"%char body c'); try done.
      change (rev ("-"%char :: body)) with (rev body ++ ["-"%char]).
      rewrite Hrev. unfold body at 2. simpl removelast. fold body.
      simpl rev at 2. by rewrite <- app_comm_cons. }
  split; [exact Htrim|]. unfold accepts. rewrite Htrim. split.
  - intros ->. discriminate Hv.
  - by exists v.
Qed.

(** X10: [Atoi] succeeds exactly on an optional sign followed by one or more
    decimal digits that write an integer of the [int64] range, and returns
    that integer. *)
Theorem Atoi_signed_decimal s v :
  Atoi s = inl v <->
  exists (neg : bool) (body : gostring),
    (s = body /\ neg = false \/ s = "+"%char :: body /\ neg = false \/
     s = "-"%char :: body /\ neg = true) /\
    body <> [] /\ forallb is_digit body = true /\
    v = (if neg then - decimal body else decimal body) /\ in_int64 v.
Proof. apply Atoi_spec. Qed.

(** ** Further properties of the planner (main.go, lines 89-114) *)

Lemma remove_dups_length (l : list Z) : (length (remove_dups l) <= length l)%nat.
Proof.
  induction l as [|x l IH]; simpl; [lia|].
  destruct (decide_rel elem_of x l); simpl; lia.
Qed.

Lemma accepts_range toks ids :
  Forall2 accepts toks ids -> Forall (fun id => 0 <= id < 2 ^ 32) ids.
Proof.
  induction 1 as [|tok id toks ids [_ (v & _ & ->)] _ IH]; constructor;
    [apply uint32_range | exact IH].
Qed.

(** A planner that goes on has added the shards of a list of [uint32]
    identifiers. *)
Lemma planner_continue_ids f tr st :
  planner f = (tr, Continue st) ->
  tr = [] /\ st = addShards (rng f) (snd st) (∅, []) /\
  Forall (fun id => 0 <= id < 2 ^ 32) (snd st).
Proof.
  intros H. destruct (TrimSpace (shards f)) as [|c s] eqn:E.
  - destruct (Z_lt_le_dec 0 (shardsCount f)) as [Hc|Hc].
    + rewrite (planner_count f E Hc) in H. injection H as <- <-.
      rewrite addShards_snd. simpl. split; [reflexivity|]. split; [reflexivity|].
      apply Forall_forall. intros id Hid. apply elem_of_seqZ in Hid.
      pose proof (uint32_range (shardsCount f)). lia.
    + rewrite (planner_usage f E Hc) in H. discriminate.
  - assert (Hne : TrimSpace (shards f) <> []) by (rewrite E; discriminate).
    destruct (planner_continue f tr st H) as [-> _].
    destruct (planner_list_continue f [] st Hne H) as [Hacc Hst].
    split; [reflexivity|]. split; [exact Hst|]. by apply accepts_range in Hacc.
Qed.

(** X11: whenever the planner goes on, in either mode, it has logged
    nothing; the keys of the map are exactly the identifiers kept for logging;
    every identifier is a [uint32]; the map has no more entries than that
    list is long; and every entry holds the collection made of the one
    range. *)
Theorem planner_result_invariant f tr st :
  planner f = (tr, Continue st) ->
  tr = [] /\
  dom (fst st) = list_to_set (snd st) /\
  Forall (fun id => 0 <= id < 2 ^ 32) (snd st) /\
  (size (fst st) <= length (snd st))%nat /\
  (forall k, k ∈ snd st -> fst st !! k = Some (singleRange f)) /\
  (forall k, k ∉ snd st -> fst st !! k = None).
Proof.
  intros H. destruct (planner_continue_ids f tr st H) as (-> & Hst & Hr).
  split; [reflexivity|]. remember (snd st) as ids eqn:Eids. clear Eids H.
  subst st. split; [|split; [exact Hr|split; [|split]]].
  - rewrite addShards_dom. simpl. rewrite dom_empty_L. apply (right_id_L ∅ (∪)).
  - rewrite addShards_size. apply remove_dups_length.
  - intros k Hk. rewrite addShards_lookup. by rewrite decide_True.
  - intros k Hk. rewrite addShards_lookup. rewrite decide_False by done.
    apply lookup_empty.
Qed.

Lemma shardListLoop_app_accepts all r pre ids rest st :
  Forall2 accepts pre ids ->
  shardListLoop all r (pre ++ rest) st =
  shardListLoop all r rest (addShards r ids st).
Proof.
  intros Hpre. revert st.
  induction Hpre as [|t id pre ids [Ht (v & Hv & ->)] _ IH]; intros st;
    [reflexivity|].
  rewrite <- app_comm_cons, (shardListLoop_accept _ _ _ _ _ v Ht Hv). apply IH.
Qed.

(** X12: the list loop stops at the first token it rejects: when the tokens
    before it are accepted, a token that is empty after trimming ends the
    process on the message naming the whole list, and a token that [Atoi]
    does not read ends it on the message naming the trimmed token and the
    error; the tokens after it are not looked at. *)
Theorem planner_first_rejected f pre ids tok post :
  TrimSpace (shards f) <> [] ->
  Split (shards f) "," = pre ++ tok :: post ->
  Forall2 accepts pre ids ->
  (TrimSpace tok = [] -> planner f = Fatalf (InvalidShardList (shards f))) /\
  (forall err, TrimSpace tok <> [] -> Atoi (TrimSpace tok) = inr err ->
     planner f = Fatalf (CouldNotParseShard (TrimSpace tok) err)).
Proof.
  intros Hne Hsplit Hpre. rewrite (planner_list f Hne), Hsplit.
  pose proof (shardListLoop_app_accepts (shards f) (rng f) pre ids (tok :: post)
                (∅, []) Hpre) as Hloop.
  rewrite Hloop. split.
  - intros E. simpl. by rewrite E.
  - intros err E Herr. by apply shardListLoop_parse_error.
Qed.

(** X13: a shard list that starts or ends with a comma has an empty token
    and is always fatal, with status 1. *)
Theorem planner_comma_at_end f s :
  shards f = s ++ [","%char] \/ shards f = ","%char :: s ->
  TrimSpace (shards f) <> [] ->
  exists msg, planner f = Fatalf msg /\ exit_status (planner f) = 1.
Proof.
  intros Hs Hne. rewrite (planner_list f Hne).
  assert (Hex : Exists rejects (Split (shards f) ",")).
  { destruct Hs as [-> | ->].
    - rewrite Split_snoc_sep. apply Exists_app. right. left. by left.
    - rewrite Split_cons_sep. left. by left. }
  destruct (shardListLoop_rejects (shards f) (rng f) _ (∅, []) Hex) as [msg Hm].
  exists msg. by rewrite Hm.
Qed.

(** X14: the map depends only on the set of shard identifiers: two runs of
    the planner over the same window whose identifiers are the same up to
    order and repetition, in whichever of the two modes, build the same
    map. *)
Theorem planner_map_by_set f1 f2 tr1 st1 tr2 st2 :
  rng f1 = rng f2 ->
  planner f1 = (tr1, Continue st1) -> planner f2 = (tr2, Continue st2) ->
  (forall k, k ∈ snd st1 <-> k ∈ snd st2) ->
  fst st1 = fst st2.
Proof.
  intros Hr H1 H2 Hset.
  destruct (planner_continue_ids f1 tr1 st1 H1) as (_ & E1 & _).
  destruct (planner_continue_ids f2 tr2 st2 H2) as (_ & E2 & _).
  apply map_eq. intros k. rewrite E1, E2, !addShards_lookup, Hr. simpl.
  destruct (decide (k ∈ snd st1)) as [Hin|Hout].
  - rewrite decide_True; [reflexivity | by apply Hset].
  - rewrite decide_False; [reflexivity | by rewrite <- Hset].
Qed.

(** X15: a shards flag made of ASCII whitespace only is no shard list: the
    planner does what it does with the flag left empty, and the shard count
    decides. *)
Theorem planner_blank_list f :
  Forall (fun w => is_ascii_space w = true) (shards f) ->
  planner f = planner (withShards [] f).
Proof.
  intros Hws. apply TrimSpace_ascii_blank in Hws.
  unfold planner. simpl. rewrite Hws. reflexivity.
Qed.

(** ** Further properties of the process (main.go, lines 45-234) *)

(** X16: for every value of the parsed flags, that is once [flag.Parse] has
    returned, and with no debug listener, the exit status is 0 or 1, and it
    is 0 exactly when both required flags are set, the planner has produced
    its map, and the construction of the commit-log stage, the construction
    of the namespace metadata and the bootstrap have all succeeded. *)
Theorem main_exit_status f :
  (exit_status (main f) = 0 \/ exit_status (main f) = 1) /\
  (exit_status (main f) = 0 <->
   is_empty (pathPrefix f) = false /\ is_empty (namespaceStr f) = false /\
   exists st source md res,
     planner f = ret st /\
     NewCommitLogBootstrapper
       (mkOptions (pathPrefix f) (flushSize f) (blockSize f)) = inl source /\
     NewMetadata (namespaceStr f)
       (mkRetentionOptions (blockSize f) (bootstrapRetention f)
          (1 * Minute) (1 * Minute)) = inl md /\
     Bootstrap source md (fst st) (mkRunOptions false) = inl res).
Proof.
  destruct (main_cases f) as [(st & Hm & Hp & G)|[Hexit _]].
  - apply orb_false_iff in G as [G1 G2].
    rewrite Hm, invoke_run.
    destruct (NewCommitLogBootstrapper _) as [source|err] eqn:E1.
    + destruct (NewMetadata _ _) as [md|err] eqn:E2.
      * destruct (Bootstrap _ _ _ _) as [res|err] eqn:E3.
        -- split; [by left|]. split; [|reflexivity].
           intros _. split; [exact G1|]. split; [exact G2|].
           by exists st, source, md, res.
        -- split; [by right|]. split; [discriminate|].
           intros (_ & _ & st' & source' & md' & res' & Hp' & [= <-] & [= <-] & E3').
           rewrite Hp in Hp'. injection Hp' as <-. congruence.
      * split; [by right|]. split; [discriminate|].
        intros (_ & _ & st' & source' & md' & res' & _ & _ & [=] & _).
    + split; [by right|]. split; [discriminate|].
      intros (_ & _ & st' & source' & md' & res' & _ & [=] & _).
  - unfold exit_status. rewrite Hexit. split; [by right|]. split; [discriminate|].
    intros (G1 & G2 & st & source & md & res & Hp & E1 & E2 & E3). exfalso.
    assert (G : is_empty (pathPrefix f) || is_empty (namespaceStr f) = false)
      by (by rewrite G1, G2).
    rewrite (main_invoke f st G Hp), invoke_run, E1, E2, E3 in Hexit.
    discriminate Hexit.
Qed.

(** X17: the calls of the pipeline are made in one order and stop at the
    first failure: nothing, or the construction of the commit-log stage only,
    or that and the construction of the metadata, or both followed by the
    single bootstrap; the stage gets the path prefix, flush size and block
    size of the flags, the metadata gets the namespace, the block size, the
    retention and one minute of buffer either way, and the bootstrap gets the
    planner's map with incremental save off. *)
Theorem main_call_order f :
  let opts := mkOptions (pathPrefix f) (flushSize f) (blockSize f) in
  let ropts :=
    mkRetentionOptions (blockSize f) (bootstrapRetention f) (1 * Minute) (1 * Minute) in
  let calls := filter (fun e => is_pipeline_call e = true) (trace (main f)) in
  calls = [] \/
  (calls = [CallNewCommitLogBootstrapper opts] /\
   exists err, NewCommitLogBootstrapper opts = inr err) \/
  (calls = [CallNewCommitLogBootstrapper opts; CallNewMetadata (namespaceStr f) ropts] /\
   exists err, NewMetadata (namespaceStr f) ropts = inr err) \/
  (exists st md,
     planner f = ret st /\ NewMetadata (namespaceStr f) ropts = inl md /\
     calls = [CallNewCommitLogBootstrapper opts;
              CallNewMetadata (namespaceStr f) ropts;
              CallBootstrap md (fst st) (mkRunOptions false)]).
Proof.
  cbv zeta.
  destruct (main_cases f) as [(st & Hm & Hp & G)|[_ Hno]].
  - rewrite Hm, invoke_run.
    destruct (NewCommitLogBootstrapper _) as [source|err] eqn:E1.
    + destruct (NewMetadata _ _) as [md|err] eqn:E2.
      * right. right. right. exists st, md. split; [exact Hp|]. split; [reflexivity|].
        destruct (Bootstrap _ _ _ _); reflexivity.
      * right. right. left. split; [reflexivity | by exists err].
    + right. left. split; [reflexivity | by exists err].
  - left. induction Hno as [|e tr He _ IH]; [reflexivity|].
    rewrite filter_cons_False; [exact IH | congruence].
Qed.

(** X18: for every value of the parsed flags, that is once [flag.Parse] has
    returned, and with no debug listener, the process fails fast: a usage
    message or a fatal log is always the last thing the run does, and the run
    then ends with status 1; and a run that ends the process from there on
    ends on one of the two, with status 1. *)
Theorem main_fail_fast f :
  (forall e, e ∈ trace (main f) ->
     e = Usage \/ (exists msg, e = LogFatal msg) ->
     last (trace (main f)) = Some e /\ snd (main f) = Exit 1) /\
  (forall c, snd (main f) = Exit c ->
     c = 1 /\
     exists e, last (trace (main f)) = Some e /\
       (e = Usage \/ exists msg, e = LogFatal msg)).
Proof.
  assert (Hshape :
    (exists e, main f = ([e], Exit 1) /\ (e = Usage \/ exists msg, e = LogFatal msg)) \/
    (exists e0 e, main f = ([e0; e], Exit 1) /\ e = Usage /\ exists m, e0 = LogInfo m) \/
    (exists tr e, main f = (tr ++ [e], Exit 1) /\ (exists msg, e = LogFatal msg) /\
       Forall (fun e' => e' <> Usage /\ forall msg, e' <> LogFatal msg) tr) \/
    (exists tr, main f = (tr, Continue tt) /\
       Forall (fun e' => e' <> Usage /\ forall msg, e' <> LogFatal msg) tr)).
  { destruct (is_empty (pathPrefix f) || is_empty (namespaceStr f)) eqn:G.
    - left. exists Usage. split; [by apply main_usage | by left].
    - destruct (planner_cases f) as [[ids E]|[[msg E]|E]].
      + right. right. rewrite (main_invoke f _ G E), invoke_run.
        destruct (NewCommitLogBootstrapper _) as [source|err].
        * destruct (NewMetadata _ _) as [md|err].
          -- destruct (Bootstrap _ _ _ _) as [res|err].
             ++ right. eexists. split; [reflexivity|].
                repeat (constructor; [by split|]). constructor.
             ++ left. eexists (_ :: _ :: _ :: _ :: [_]), _.
                split; [reflexivity|]. split; [by eexists|].
                repeat (constructor; [by split|]). constructor.
          -- left. eexists (_ :: _ :: _ :: [_]), _.
             split; [reflexivity|]. split; [by eexists|].
             repeat (constructor; [by split|]). constructor.
        * left. eexists (_ :: _ :: [_]), _.
          split; [reflexivity|]. split; [by eexists|].
          repeat (constructor; [by split|]). constructor.
      + left. exists (LogFatal msg). split; [by apply main_planner_exit|].
        right. by exists msg.
      + right. left. eexists _, Usage. split; [by apply main_planner_exit|].
        split; [reflexivity | by eexists]. }
  destruct Hshape as [(e0 & -> & He0)|[(e0 & e1 & -> & -> & m & ->)|
                     [(tr & e0 & -> & (msg0 & ->) & Htr)|(tr & -> & Htr)]]]; simpl.
  - split.
    + intros e He _. apply list_elem_of_singleton in He as ->. by split.
    + intros c [= <-]. split; [reflexivity|]. by exists e0.
  - split.
    + intros e He Hk. split; [|reflexivity].
      apply elem_of_cons in He as [->|He].
      * destruct Hk as [?|[? ?]]; discriminate.
      * by apply list_elem_of_singleton in He as ->.
    + intros c [= <-]. split; [reflexivity|]. exists Usage. split; [reflexivity | by left].
  - split.
    + intros e He Hk. split; [|reflexivity]. rewrite last_snoc.
      apply elem_of_app in He as [He|He].
      * exfalso. rewrite Forall_forall in Htr. destruct (Htr e He) as [Hu Hf].
        destruct Hk as [->|[msg ->]]; [by apply Hu | by apply (Hf msg)].
      * by apply list_elem_of_singleton in He as ->.
    + intros c [= <-]. split; [reflexivity|]. exists (LogFatal msg0).
      rewrite last_snoc. split; [reflexivity|]. right. by exists msg0.
  - split.
    + intros e He Hk. exfalso. rewrite Forall_forall in Htr.
      destruct (Htr e He) as [Hu Hf].
      destruct Hk as [->|[msg ->]]; [by apply Hu | by apply (Hf msg)].
    + discriminate.
Qed.

End Tool.

(** ** The tool on given flags *)

Local Abbreviation planner' :=
  (planner Symbolic.new_ranges Symbolic.add_range (Metadata := unit)).
Local Abbreviation main' :=
  (main Symbolic.new_ranges Symbolic.add_range Symbolic.newBootstrapper
     Symbolic.newMetadata Symbolic.bootstrap Symbolic.shardResultsLen
     Symbolic.unfulfilledLen).
Local Abbreviation single' f :=
  (Symbolic.add_range Symbolic.new_ranges (rng f)).

(** The end-to-end scenario of the window: a block size of ten minutes. *)
Example window_10m :
  let t0 := (1500000000 + unixToInternal) * Second in
  now 1500000123 = mkTime (1500000123 + unixToInternal) 0 /\
  truncated_down (abs_ns (now 1500000123)) (10 * Minute) = t0 /\
  abs_ns (startInclusive 1500000123 (10 * Minute)) = t0 - 10 * Minute /\
  abs_ns (endExclusive 1500000123 (10 * Minute)) = t0 + 20 * Minute.
Proof. vm_compute. repeat split. Qed.

(** A block size that does not divide a day: the multiples are counted from
    the zero time, not from the Unix epoch. *)
Example window_7h :
  abs_ns (Truncate (now 0) (7 * Hour)) = (unixToInternal - 7200) * Second.
Proof. reflexivity. Qed.

Example Atoi_examples :
  Atoi (str "42") = inl 42 /\ Atoi (str "+5") = inl 5 /\ Atoi (str "-1") = inl (-1) /\
  Atoi (str "") = inr ErrSyntax /\ Atoi (str "abc") = inr ErrSyntax /\
  Atoi (str "1_0") = inr ErrSyntax /\ Atoi (str "-") = inr ErrSyntax /\
  Atoi (str "9223372036854775807") = inl 9223372036854775807 /\
  Atoi (str "9223372036854775808") = inr ErrRange /\
  Atoi (str "-9223372036854775808") = inl (-9223372036854775808).
Proof. vm_compute. repeat split. Qed.

Example TrimSpace_examples :
  TrimSpace (str "  7	") = str "7" /\ TrimSpace (str " ") = [] /\
  TrimSpace (str " a b ") = str "a b" /\
  Split (str "1, 2,,3") "," = [str "1"; str " 2"; []; str "3"] /\
  Split [] "," = [[]].
Proof. vm_compute. repeat split. Qed.

(** *** The window *)

Lemma C1_window_ends_witness :
  abs_ns (now 1500000123) = (1500000123 + unixToInternal) * Second /\
  wf (startInclusive 1500000123 (10 * Minute)) /\
  wf (endExclusive 1500000123 (10 * Minute)) /\
  abs_ns (startInclusive 1500000123 (10 * Minute)) =
    truncated_down (abs_ns (now 1500000123)) (10 * Minute) - 10 * Minute /\
  abs_ns (endExclusive 1500000123 (10 * Minute)) =
    truncated_down (abs_ns (now 1500000123)) (10 * Minute) + 2 * (10 * Minute).
Proof.
  apply (C1_window_ends 1500000123 (10 * Minute)).
  unfold window_fits. vm_compute. repeat split; discriminate.
Defined.

(** With a negative block size, which the flag accepts, [Truncate] leaves
    the reference time as it is: the start is not a truncated time minus the
    block size, and the start plus the block size is no multiple of the block
    size at all.  With a block size of 2^62 nanoseconds the doubled block
    size wraps around, and the end is not the truncated time plus two block
    sizes. *)
Lemma C1_counterexample :
  abs_ns (startInclusive 1 (- (10 * Minute))) <>
    truncated_down (abs_ns (now 1)) (- (10 * Minute)) - - (10 * Minute) /\
  ~ (- (10 * Minute) | abs_ns (startInclusive 1 (- (10 * Minute))) + - (10 * Minute)) /\
  abs_ns (endExclusive 1500000123 (2 ^ 62)) <>
    truncated_down (abs_ns (now 1500000123)) (2 ^ 62) + 2 * 2 ^ 62.
Proof.
  split; [|split].
  - vm_compute. discriminate.
  - intros H. apply Z.mod_divide in H; [|discriminate].
    vm_compute in H. discriminate.
  - vm_compute. discriminate.
Qed.

Lemma C2_window_length_witness :
  abs_ns (endExclusive 1500000123 (10 * Minute))
    - abs_ns (startInclusive 1500000123 (10 * Minute)) = 3 * (10 * Minute) /\
  abs_ns (startInclusive 1500000123 (10 * Minute))
    <= abs_ns (Truncate (now 1500000123) (10 * Minute))
    < abs_ns (endExclusive 1500000123 (10 * Minute)) /\
  Before (Truncate (now 1500000123) (10 * Minute))
    (startInclusive 1500000123 (10 * Minute)) = false /\
  Before (Truncate (now 1500000123) (10 * Minute))
    (endExclusive 1500000123 (10 * Minute)) = true.
Proof.
  apply (C2_window_length 1500000123 (10 * Minute)).
  unfold window_fits. vm_compute. repeat split; discriminate.
Defined.

(** With a block size of zero the window is empty: no instant, truncated or
    not, is at or after its start and before its end.  With a block size of
    2^62 nanoseconds the doubled block size wraps around and the window is
    not three block sizes long. *)
Lemma C2_counterexample :
  startInclusive 1500000123 0 = endExclusive 1500000123 0 /\
  ~ (abs_ns (startInclusive 1500000123 0)
       <= abs_ns (Truncate (now 1500000123) 0)
       < abs_ns (endExclusive 1500000123 0)) /\
  abs_ns (endExclusive 1500000123 (2 ^ 62))
    - abs_ns (startInclusive 1500000123 (2 ^ 62)) <> 3 * 2 ^ 62.
Proof.
  split; [reflexivity|]. split.
  - vm_compute. intros [H1 H2]. discriminate H2.
  - vm_compute. discriminate.
Qed.

(** *** The shard map *)

Local Abbreviation flags := (defaultFlags 1500000123).
Lemma C3_shard_list_witness :
  exists m, planner' (withShards (str "3, 1,4") flags) = ret (m, [3; 1; 4]) /\
    forall k, m !! k =
      if decide (k ∈ [3; 1; 4])
      then Some (single' (withShards (str "3, 1,4") flags)) else None.
Proof.
  assert (H : TrimSpace (shards (withShards (str "3, 1,4") flags)) <> [])
    by eval_closed.
  refine (proj1 (proj2 (C3_shard_list Symbolic.new_ranges Symbolic.add_range
                          (withShards (str "3, 1,4") flags) H)) [3; 1; 4] _).
  replace (Split (shards (withShards (str "3, 1,4") flags)) ",")
    with [str "3"; str " 1"; str "4"] by eval_closed.
  constructor; [accept_token 3|].
  constructor; [accept_token 1|].
  constructor; [accept_token 4|]. constructor.
Defined.

(** The token "-1" is not a non-negative integer, and the planner neither
    rejects it nor exits: it stores the shard 4294967295. *)
Lemma C3_counterexample :
  Atoi (TrimSpace (str "-1")) = inl (-1) /\
  planner' (withShards (str "-1") flags) =
    ret ({[4294967295 := single' (withShards (str "-1") flags)]}, [4294967295]).
Proof. split; eval_closed. Qed.

Lemma C4_shard_list_entries_witness :
  exists m : gmap Z Symbolic.ranges,
    planner' (withShards (str "5,5,7") flags) = ret (m, [5; 5; 7]) /\ size m = 2%nat.
Proof.
  assert (H : TrimSpace (shards (withShards (str "5,5,7") flags)) <> [])
    by eval_closed.
  exact (proj2 (proj2 (proj2 (C4_shard_list_entries Symbolic.new_ranges
                                Symbolic.add_range
                                (withShards (str "5,5,7") flags) H)) eq_refl)).
Defined.

(** The list "1,4294967297" holds two distinct shard ids, 1 and 4294967297,
    both read by [Atoi]; the map has one entry, for shard 1, not two. *)
Lemma C4_counterexample :
  map (fun tok => Atoi (TrimSpace tok)) (Split (str "1,4294967297") ",")
    = [inl 1; inl 4294967297] /\
  1 <> 4294967297 /\
  planner' (withShards (str "1,4294967297") flags) =
    ret ({[1 := single' (withShards (str "1,4294967297") flags)]}, [1; 1]) /\
  size ({[1 := single' (withShards (str "1,4294967297") flags)]}
        : gmap Z Symbolic.ranges) = 1%nat.
Proof. repeat split; eval_closed. Qed.

Lemma C5_shard_count_witness :
  exists m, planner' (withShardsCount 3 flags) = ret (m, seqZ 0 (3 mod 2 ^ 32)) /\
    Z.of_nat (size m) = 3 mod 2 ^ 32 /\
    forall k, m !! k =
      if decide (0 <= k < 3 mod 2 ^ 32)
      then Some (single' (withShardsCount 3 flags)) else None.
Proof.
  exact (proj1 (C5_shard_count Symbolic.new_ranges Symbolic.add_range
                  (withShardsCount 3 flags) eq_refl eq_refl)).
Defined.

(** With shards-count 2^32, which a 64-bit [int] flag accepts, the planner
    goes on with an empty map: not 2^32 entries, and none for shard 0. *)
Lemma C5_counterexample :
  0 < shardsCount (withShardsCount (2 ^ 32) flags) /\
  planner' (withShardsCount (2 ^ 32) flags) = ret (∅, []) /\
  Z.of_nat (size (∅ : gmap Z Symbolic.ranges))
    <> shardsCount (withShardsCount (2 ^ 32) flags) /\
  (∅ : gmap Z Symbolic.ranges) !! 0 = None.
Proof. repeat split; eval_closed. Qed.

(** *** The process *)

Lemma C6_no_shard_selection_witness :
  Usage ∈ trace (main' (withShardsCount 0 flags)) /\
  snd (main' (withShardsCount 0 flags)) = Exit 1 /\
  exit_status (main' (withShardsCount 0 flags)) = 1 /\
  Forall (fun e => is_pipeline_call e = false) (trace (main' (withShardsCount 0 flags))).
Proof.
  apply (C6_no_shard_selection Symbolic.new_ranges Symbolic.add_range
           Symbolic.newBootstrapper Symbolic.newMetadata Symbolic.bootstrap
           Symbolic.shardResultsLen Symbolic.unfulfilledLen (withShardsCount 0 flags)).
  - reflexivity.
  - vm_compute. discriminate.
Defined.

Lemma C7_parse_error_witness :
  planner' (withShards (str "1, 2, abc") flags) =
    Fatalf (CouldNotParseShard (str "abc") ErrSyntax) /\
  snd (main' (withShards (str "1, 2, abc") flags)) = Exit 1 /\
  exit_status (main' (withShards (str "1, 2, abc") flags)) = 1 /\
  Forall (fun e => is_pipeline_call e = false)
    (trace (main' (withShards (str "1, 2, abc") flags))).
Proof.
  apply (C7_parse_error Symbolic.new_ranges Symbolic.add_range
           Symbolic.newBootstrapper Symbolic.newMetadata Symbolic.bootstrap
           Symbolic.shardResultsLen Symbolic.unfulfilledLen
           (withShards (str "1, 2, abc") flags)).
  reflexivity.
Defined.

Lemma C8_ranges_ordered_witness :
  Before (RangeStart (rng (withShards (str "0") flags)))
         (RangeEnd (rng (withShards (str "0") flags))) = true /\
  forall k v,
    ({[0 := single' (withShards (str "0") flags)]} : gmap Z Symbolic.ranges) !! k = Some v ->
    v = single' (withShards (str "0") flags).
Proof.
  assert (Hfit : window_fits (currentUnixTimestamp (withShards (str "0") flags))
                             (blockSize (withShards (str "0") flags))).
  { unfold window_fits. vm_compute. repeat split; discriminate. }
  assert (Hrun : planner' (withShards (str "0") flags) =
                 ([], Continue
                        (({[0 := single' (withShards (str "0") flags)]}
                          : gmap Z Symbolic.ranges), [0]))).
  { vm_compute. reflexivity. }
  exact (C8_ranges_ordered Symbolic.new_ranges Symbolic.add_range
           (withShards (str "0") flags) [] _ Hfit Hrun).
Defined.

(** With a negative block size the planner goes on and stores, for shard 0,
    the range whose start is after its end; so it does with a block size of
    2^62 nanoseconds, whose double wraps around. *)
Lemma C8_counterexample :
  planner' (withBlockSize (- (10 * Minute)) (withShards (str "0") flags)) =
    ret ({[0 := single' (withBlockSize (- (10 * Minute)) (withShards (str "0") flags))]},
         [0]) /\
  Before (RangeStart (rng (withBlockSize (- (10 * Minute)) (withShards (str "0") flags))))
         (RangeEnd (rng (withBlockSize (- (10 * Minute)) (withShards (str "0") flags))))
    = false /\
  After (RangeStart (rng (withBlockSize (- (10 * Minute)) (withShards (str "0") flags))))
        (RangeEnd (rng (withBlockSize (- (10 * Minute)) (withShards (str "0") flags))))
    = true /\
  planner' (withBlockSize (2 ^ 62) (withShards (str "0") flags)) =
    ret ({[0 := single' (withBlockSize (2 ^ 62) (withShards (str "0") flags))]}, [0]) /\
  After (RangeStart (rng (withBlockSize (2 ^ 62) (withShards (str "0") flags))))
        (RangeEnd (rng (withBlockSize (2 ^ 62) (withShards (str "0") flags))))
    = true.
Proof. repeat split; eval_closed. Qed.

(** A whole run on the list "5,5,7": one attempt, on the map of two
    entries, without incremental save. *)
Example main_5_5_7 :
  let f := withShards (str "5,5,7") flags in
  main' f =
    ([LogConfigured (str "/var/lib/m3db") (str "metrics") [5; 5; 7];
      LogInfo (str "bootstrapping");
      CallNewCommitLogBootstrapper
        (mkOptions (str "/var/lib/m3db") 524288 (10 * Minute));
      CallNewMetadata (str "metrics")
        (mkRetentionOptions (10 * Minute) (48 * Hour) (1 * Minute) (1 * Minute));
      CallBootstrap tt {[5 := single' f; 7 := single' f]} (mkRunOptions false);
      LogBootstrapped 2 0], Continue tt) /\
  exit_status (main' f) = 0.
Proof. split; eval_closed. Qed.

(** A blank shard list is no list: the count decides. *)
Example blank_shard_list :
  planner' (withShardsCount 2 (withShards (str "  ") flags)) =
    ret ({[0 := single' flags; 1 := single' flags]}, [0; 1]).
Proof. eval_closed. Qed.

(** An empty token in the list is fatal. *)
Example empty_token :
  planner' (withShards (str "1,,2") flags) = Fatalf (InvalidShardList (str "1,,2")).
Proof. eval_closed. Qed.

(** *** Further properties, on given flags *)

Lemma window_covers_now_witness :
  abs_ns (now 1500000123) - 2 * (10 * Minute)
    < abs_ns (startInclusive 1500000123 (10 * Minute))
    <= abs_ns (now 1500000123) - 10 * Minute /\
  abs_ns (now 1500000123) + 10 * Minute
    < abs_ns (endExclusive 1500000123 (10 * Minute))
    <= abs_ns (now 1500000123) + 2 * (10 * Minute).
Proof.
  apply (window_covers_now 1500000123 (10 * Minute)).
  unfold window_fits. vm_compute. repeat split; discriminate.
Defined.

Lemma window_aligned_witness :
  (10 * Minute | abs_ns (startInclusive 1500000123 (10 * Minute))) /\
  (10 * Minute | abs_ns (endExclusive 1500000123 (10 * Minute))) /\
  ((10 * Minute | 24 * Hour) ->
   (10 * Minute | abs_ns (startInclusive 1500000123 (10 * Minute))
                  - unixToInternal * Second) /\
   (10 * Minute | abs_ns (endExclusive 1500000123 (10 * Minute))
                  - unixToInternal * Second)).
Proof.
  apply (window_aligned 1500000123 (10 * Minute)).
  unfold window_fits. vm_compute. repeat split; discriminate.
Defined.

Lemma window_by_block_witness :
  (1500000123 <= 1500000456 ->
   abs_ns (startInclusive 1500000123 (10 * Minute))
     <= abs_ns (startInclusive 1500000456 (10 * Minute)) /\
   abs_ns (endExclusive 1500000123 (10 * Minute))
     <= abs_ns (endExclusive 1500000456 (10 * Minute))) /\
  (abs_ns (now 1500000123) / (10 * Minute) = abs_ns (now 1500000456) / (10 * Minute) ->
   startInclusive 1500000123 (10 * Minute) = startInclusive 1500000456 (10 * Minute) /\
   endExclusive 1500000123 (10 * Minute) = endExclusive 1500000456 (10 * Minute)).
Proof.
  apply (window_by_block 1500000123 1500000456 (10 * Minute));
    unfold window_fits; vm_compute; repeat split; discriminate.
Defined.

Lemma window_end_from_start_witness :
  Add (startInclusive 1500000123 (10 * Minute)) (int64 (10 * Minute * 3))
  = endExclusive 1500000123 (10 * Minute).
Proof.
  apply (window_end_from_start 1500000123 (10 * Minute)).
  - unfold window_fits. vm_compute. repeat split; discriminate.
  - reflexivity.
Defined.

Lemma window_negative_block_witness :
  abs_ns (startInclusive 1500000123 (- (10 * Minute)))
    = abs_ns (now 1500000123) - - (10 * Minute) /\
  abs_ns (endExclusive 1500000123 (- (10 * Minute)))
    = abs_ns (now 1500000123) + 2 * - (10 * Minute) /\
  Before (endExclusive 1500000123 (- (10 * Minute)))
         (startInclusive 1500000123 (- (10 * Minute))) = true.
Proof.
  apply (window_negative_block 1500000123 (- (10 * Minute)));
    vm_compute; repeat split; discriminate.
Defined.

Lemma padded_token_accepted_witness :
  TrimSpace (str "  " ++ str "-12" ++ str "	") = str "-12" /\
  accepts (str "  " ++ str "-12" ++ str "	") (uint32 (-12)).
Proof.
  apply (padded_token_accepted (str "  ") (str "-12") (str "	") (-12)).
  - repeat constructor.
  - repeat constructor.
  - reflexivity.
Defined.

Local Abbreviation map_5_7 :=
  ({[5 := single' (withShards (str "5,5,7") flags);
     7 := single' (withShards (str "5,5,7") flags)]} : gmap Z Symbolic.ranges).

Lemma planner_result_invariant_witness :
  @nil (@event Symbolic.ranges unit) = [] /\
  dom map_5_7 = list_to_set [5; 5; 7] /\
  Forall (fun id => 0 <= id < 2 ^ 32) [5; 5; 7] /\
  (size map_5_7 <= length [5%Z; 5%Z; 7%Z])%nat /\
  (forall k, k ∈ [5; 5; 7] ->
     map_5_7 !! k = Some (single' (withShards (str "5,5,7") flags))) /\
  (forall k, k ∉ [5; 5; 7] -> map_5_7 !! k = None).
Proof.
  assert (Hrun : planner' (withShards (str "5,5,7") flags) =
                 ([], Continue (map_5_7, [5; 5; 7]))).
  { vm_compute. reflexivity. }
  exact (planner_result_invariant Symbolic.new_ranges Symbolic.add_range
           (withShards (str "5,5,7") flags) [] _ Hrun).
Defined.

Lemma planner_first_rejected_witness :
  (TrimSpace (str " x") = [] ->
   planner' (withShards (str "1, x,,3") flags) =
     Fatalf (InvalidShardList (shards (withShards (str "1, x,,3") flags)))) /\
  (forall err, TrimSpace (str " x") <> [] -> Atoi (TrimSpace (str " x")) = inr err ->
     planner' (withShards (str "1, x,,3") flags) =
       Fatalf (CouldNotParseShard (TrimSpace (str " x")) err)).
Proof.
  apply (planner_first_rejected Symbolic.new_ranges Symbolic.add_range
           (withShards (str "1, x,,3") flags) [str "1"] [1] (str " x") [[]; str "3"]).
  - vm_compute. discriminate.
  - vm_compute. reflexivity.
  - constructor; [accept_token 1 | constructor].
Defined.

Lemma planner_comma_at_end_witness :
  exists msg, planner' (withShards (str "1,2" ++ [","%char]) flags) = Fatalf msg /\
    exit_status (planner' (withShards (str "1,2" ++ [","%char]) flags)) = 1.
Proof.
  apply (planner_comma_at_end Symbolic.new_ranges Symbolic.add_range
           (withShards (str "1,2" ++ [","%char]) flags) (str "1,2")).
  - left. reflexivity.
  - vm_compute. discriminate.
Defined.

Lemma planner_map_by_set_witness :
  ({[0 := single' flags; 1 := single' flags]} : gmap Z Symbolic.ranges)
  = {[1 := single' flags; 0 := single' flags]}.
Proof.
  assert (H1 : planner' (withShardsCount 2 flags) =
               ([], Continue
                      (({[0 := single' flags; 1 := single' flags]}
                        : gmap Z Symbolic.ranges), [0; 1]))).
  { vm_compute. reflexivity. }
  assert (H2 : planner' (withShards (str "1,0, 1") flags) =
               ([], Continue
                      (({[1 := single' flags; 0 := single' flags]}
                        : gmap Z Symbolic.ranges), [1; 0; 1]))).
  { vm_compute. reflexivity. }
  refine (planner_map_by_set Symbolic.new_ranges Symbolic.add_range
            (withShardsCount 2 flags) (withShards (str "1,0, 1") flags)
            [] _ [] _ eq_refl H1 H2 _).
  intros k. simpl. rewrite !elem_of_cons, !elem_of_nil. tauto.
Defined.

Lemma planner_blank_list_witness :
  planner' (withShards (str " 	 ") flags) = planner' (withShards [] (withShards (str " 	 ") flags)).
Proof.
  apply (planner_blank_list Symbolic.new_ranges Symbolic.add_range
           (withShards (str " 	 ") flags)).
  repeat constructor.
Defined.
